(** * trafikverket-helper: session lifecycle, polling client and snapshot
    reconciler

    A shallow embedding of [api/session_manager.py], [api/trafikverket.py],
    [helpers/helpers.py], [helpers/database.py] and the polling loop of
    [modes/monitor_rides.py], followed by the properties of the
    specification that are stated over it.

    Conventions.
    - A Python [str] is a [string] whose characters are its code points:
      the model covers the texts whose code points are all below 256. For
      these code points white space ([str.strip], [\s]) and case folding
      ([str.lower], [re.IGNORECASE] against the ASCII literals of the
      sources) are modelled exactly. A code point from 256 on has no
      counterpart here, among them the four that Python folds to an ASCII
      letter (U+212A to k, U+017F to s, U+0130 and U+0131 to i); the
      properties of the regular expressions are therefore stated for ASCII
      texts, see [PyStr.isascii]. The order of two texts by code points is
      the byte order of their UTF-8 encodings, which SQLite compares.
    - A [datetime] is an integer number of microseconds, a [timedelta] the
      difference of two of them.
    - Python dictionaries used as maps are [gmap string string]; the values
      decoded from a JSON body are the inductive [json].
    - Every method runs in the monad [M]: a state transformer over [St] that
      either returns or raises one of the exceptions [Exn].  What the outside
      world answers (the clock, the two HTTP endpoints, SQLite's clock) is
      scripted in an [Env]; the state counts how many answers were consumed.
    - [print] and logger calls are not modelled. *)

From stdpp Require Import gmap strings list sets sorting.
From Stdlib Require Import ZArith Ascii String.

Set Warnings "-register-all".

Open Scope string_scope.
Open Scope Z_scope.

(* ===================================================================== *)
(** ** Python string operations used by the sources                       *)
(* ===================================================================== *)

Module PyStr.

(** The code points below 256 that [str.lower()] changes: A to Z, and
    U+00C0 to U+00DE without the multiplication sign U+00D7. *)
Definition is_upper (c : ascii) : bool :=
  let n := nat_of_ascii c in
  ((Nat.leb 65 n && Nat.leb n 90)
   || (Nat.leb 192 n && Nat.leb n 222 && negb (Nat.eqb n 215)))%bool.

(** Each of them has its lower case 32 code points further on. *)
Definition lower_char (c : ascii) : ascii :=
  if is_upper c then ascii_of_nat (nat_of_ascii c + 32) else c.

(** [s.lower()] *)
Fixpoint lower (s : string) : string :=
  match s with
  | EmptyString => EmptyString
  | String c s' => String (lower_char c) (lower s')
  end.

(** [s.startswith(p)], returning what follows the prefix. *)
Fixpoint strip_prefix (p s : string) : option string :=
  match p, s with
  | EmptyString, _ => Some s
  | String a p', String b s' =>
      if Ascii.eqb a b then strip_prefix p' s' else None
  | String _ _, EmptyString => None
  end.

Definition startswith (p s : string) : bool :=
  match strip_prefix p s with Some _ => true | None => false end.

(** [needle in hay] *)
Fixpoint contains (needle hay : string) : bool :=
  match hay with
  | EmptyString => startswith needle EmptyString
  | String _ hay' => (startswith needle hay || contains needle hay')%bool
  end.

Definition newline : ascii := "010"%char.

(** The regular expression [.*b] anchored at the start of [s]: the dot
    matches every character but the newline. *)
Fixpoint dotstar_then (b s : string) : bool :=
  match s with
  | EmptyString => startswith b EmptyString
  | String c s' =>
      (startswith b s
       || (if Ascii.eqb c newline then false else dotstar_then b s'))%bool
  end.

(** [re.search('a.*b', s)] for literal [a] and [b]. *)
Fixpoint search_gap (a b s : string) : bool :=
  let here := match strip_prefix a s with
              | Some rest => dotstar_then b rest
              | None => false
              end in
  match s with
  | EmptyString => here
  | String _ s' => (here || search_gap a b s')%bool
  end.

(** [s.split(c)[0]] *)
Fixpoint before_char (c : ascii) (s : string) : string :=
  match s with
  | EmptyString => EmptyString
  | String a s' => if Ascii.eqb a c then EmptyString
                   else String a (before_char c s')
  end.

(** [s.split(c, 1)] when [c] occurs in [s]: the text before and the text
    after its first occurrence. *)
Fixpoint split_once (c : ascii) (s : string) : option (string * string) :=
  match s with
  | EmptyString => None
  | String a s' =>
      if Ascii.eqb a c then Some (EmptyString, s')
      else match split_once c s' with
           | Some (l, r) => Some (String a l, r)
           | None => None
           end
  end.

(** The white space of [str.strip()] and of [\s] among the code points
    below 256: tab to carriage return, the four separators U+001C to
    U+001F, the space, the next-line control U+0085 and the no-break space
    U+00A0. *)
Definition is_space (c : ascii) : bool :=
  let n := nat_of_ascii c in
  (Nat.eqb n 32 || (Nat.leb 9 n && Nat.leb n 13)
   || (Nat.leb 28 n && Nat.leb n 31)
   || Nat.eqb n 133 || Nat.eqb n 160)%bool.

Fixpoint lstrip (s : string) : string :=
  match s with
  | EmptyString => EmptyString
  | String c s' => if is_space c then lstrip s' else s
  end.

Fixpoint rstrip (s : string) : string :=
  match s with
  | EmptyString => EmptyString
  | String c s' =>
      match rstrip s' with
      | EmptyString => if is_space c then EmptyString
                       else String c EmptyString
      | r => String c r
      end
  end.

(** [s.strip()] *)
Definition strip (s : string) : string := rstrip (lstrip s).

(** [s.isascii()]: every code point is below 128. *)
Fixpoint isascii (s : string) : bool :=
  match s with
  | EmptyString => true
  | String c s' => (Nat.ltb (nat_of_ascii c) 128 && isascii s')%bool
  end.

(** The double quote character, for building JSON text. *)
Definition dq : string := String "034"%char EmptyString.

End PyStr.

(* ===================================================================== *)
(** ** Exceptions and results                                             *)
(* ===================================================================== *)

(** The exceptions that can travel through the modelled code.
    [HTTPStatus] and [SessionExpiredError] are those of [api/exceptions.py];
    [RequestException] is the transport failure of [requests];
    [KeyError], [IndexError] and [TypeError] are Python's own;
    [SqliteError] stands for what the [sqlite3] module raises when a
    parameter cannot be stored. *)
Inductive Exn : Type :=
| HTTPStatus (status_code : Z)
| SessionExpiredError
| RequestException
| KeyError (key : string)
| IndexError
| TypeError
| SqliteError.

Inductive Res (A : Type) : Type :=
| Ok (a : A)
| Raise (e : Exn).
Arguments Ok {A} a.
Arguments Raise {A} e.

#[global] Instance Res_ret : MRet Res := fun A a => Ok a.
#[global] Instance Res_bind : MBind Res := fun A B f r =>
  match r with
  | Ok a => f a
  | Raise e => Raise e
  end.

(** A list comprehension whose body can raise: the first failure wins. *)
Fixpoint comprehension {A B : Type} (f : A -> Res B) (l : list A)
  : Res (list B) :=
  match l with
  | [] => Ok []
  | x :: l' =>
      match f x with
      | Ok y => match comprehension f l' with
                | Ok ys => Ok (y :: ys)
                | Raise e => Raise e
                end
      | Raise e => Raise e
      end
  end.

(* ===================================================================== *)
(** ** Values decoded from JSON                                           *)
(* ===================================================================== *)

(** A Python [float]: a finite value [m * 2^e], an infinity or a NaN. *)
Inductive pyfloat : Type :=
| FFinite (m e : Z)
| FInf (negative : bool)
| FNaN.

(** The Python value [response.json()] returns. An object is kept as the
    list of its members, looked up from the front. *)
Inductive json : Type :=
| JNull
| JBool (b : bool)
| JInt (n : Z)
| JFloat (f : pyfloat)
| JStr (s : string)
| JList (l : list json)
| JObj (members : list (string * json)).

Fixpoint assoc {A : Type} (k : string) (l : list (string * A)) : option A :=
  match l with
  | [] => None
  | (k', v) :: l' => if String.eqb k k' then Some v else assoc k l'
  end.

(** [x[k]] for a string key [k]. Only a dictionary accepts it. *)
Definition getitem (x : json) (k : string) : Res json :=
  match x with
  | JObj o => match assoc k o with
              | Some v => Ok v
              | None => Raise (KeyError k)
              end
  | _ => Raise TypeError
  end.

(** [x[0]] *)
Definition getitem0 (x : json) : Res json :=
  match x with
  | JList (v :: _) => Ok v
  | JList [] => Raise IndexError
  | JStr (String c _) => Ok (JStr (String c EmptyString))
  | JStr EmptyString => Raise IndexError
  | JObj _ => Raise (KeyError "0")
  | _ => Raise TypeError
  end.

Fixpoint chars (s : string) : list json :=
  match s with
  | EmptyString => []
  | String c s' => JStr (String c EmptyString) :: chars s'
  end.

(** [for ride in x]: the items an iteration over [x] visits. *)
Definition iterate (x : json) : Res (list json) :=
  match x with
  | JList l => Ok l
  | JObj o => Ok (map (fun kv => JStr (fst kv)) o)
  | JStr s => Ok (chars s)
  | _ => Raise TypeError
  end.

Definition float_eq_int (f : pyfloat) (n : Z) : bool :=
  match f with
  | FFinite m e =>
      if 0 <=? e then m * 2 ^ e =? n else m =? n * 2 ^ (- e)
  | _ => false
  end.

(** [x == n] for an integer literal [n]. *)
Definition eq_int (x : json) (n : Z) : bool :=
  match x with
  | JInt k => k =? n
  | JBool b => (if b then 1 else 0) =? n
  | JFloat f => float_eq_int f n
  | _ => false
  end.

(* ===================================================================== *)
(** ** The outside world and the program state                            *)
(* ===================================================================== *)

(** What [requests] hands back for one POST: the status code, the raw body,
    the result of decoding the body with [r.json()] ([None] when that raises
    [ValueError]) and the response headers. *)
Record Response : Type := {
  status_code : Z;
  text : string;
  json_body : option json;
  headers : list (string * string)
}.

Inductive Outcome : Type :=
| Responded (r : Response)
| ConnectionFailed.

(** The collaborators that are not part of the sources, and the script of
    the answers the outside world gives to the n-th question of each kind. *)
Record Env : Type := {
  (** [datetime.strptime(s, '%Y-%m-%d %H:%M')]; [None] for [ValueError] *)
  strptime : string -> option Z;
  (** the text SQLite stores in a TEXT NOT NULL column for a bound Python
      value; [None] when [sqlite3] raises *)
  sqlite_text : json -> option string;
  (** [constants.MAX_ATTEMPTS] *)
  MAX_ATTEMPTS : nat;
  (** the n-th reading of [datetime.now()] *)
  datetime_now_at : nat -> Z;
  (** the outcome of the n-th POST to [/Boka/occasion-bundles] *)
  occasion_bundles_at : nat -> Outcome;
  (** the outcome of the n-th POST to [/Boka/getCookie] *)
  getCookie_at : nat -> Outcome;
  (** the value of CURRENT_TIMESTAMP in the n-th INSERT statement *)
  current_timestamp_at : nat -> string
}.

(** The attributes of [SessionManager] that the modelled methods read or
    write. [refresh_interval] is set once in [__init__] and never changed;
    it is the constant below. *)
Record SessionManager : Type := {
  current_cookies : gmap string string;
  last_refresh_time : option Z
}.

Definition minutes (n : Z) : Z := n * 60 * 1000000.
Definition refresh_interval : Z := minutes 5.
Definition expiry_warning : Z := minutes 15.

(** One row of the table [rides]. *)
Record Row : Type := {
  rowid : Z;
  name : string;
  date : string;
  time : string;
  location : string;
  cost : string;
  examination_type : string;
  created_at : string;
  updated_at : string
}.

(** The table in rowid order, and the largest rowid ever handed out
    (AUTOINCREMENT). *)
Record Database : Type := {
  rows : list Row;
  sequence : Z
}.

Record St : Type := {
  session_manager : SessionManager;
  database : Database;
  clock_reads : nat;        (* calls of datetime.now() so far *)
  availability_posts : nat; (* POSTs to /Boka/occasion-bundles so far *)
  renewal_posts : nat;      (* POSTs to /Boka/getCookie so far *)
  inserts : nat             (* INSERT statements so far *)
}.

(** The monad of the modelled methods. A raised exception keeps the state
    reached when it was raised. *)
Definition M (A : Type) : Type := St -> Res A * St.

#[global] Instance M_ret : MRet M := fun A a st => (Ok a, st).
#[global] Instance M_bind : MBind M := fun A B f m st =>
  match m st with
  | (Ok a, st') => f a st'
  | (Raise e, st') => (Raise e, st')
  end.

Definition raise {A : Type} (e : Exn) : M A := fun st => (Raise e, st).

Definition lift {A : Type} (r : Res A) : M A := fun st => (r, st).

(** [try: m except ...]: the outcome of [m] as a value. *)
Definition attempt {A : Type} (m : M A) : M (Res A) := fun st =>
  let (r, st') := m st in (Ok r, st').

Definition get_manager : M SessionManager := fun st =>
  (Ok (session_manager st), st).

Definition set_manager (m : SessionManager) : M unit := fun st =>
  (Ok tt, {| session_manager := m; database := database st;
             clock_reads := clock_reads st;
             availability_posts := availability_posts st;
             renewal_posts := renewal_posts st; inserts := inserts st |}).

Definition get_database : M Database := fun st => (Ok (database st), st).

Definition set_database (d : Database) : M unit := fun st =>
  (Ok tt, {| session_manager := session_manager st; database := d;
             clock_reads := clock_reads st;
             availability_posts := availability_posts st;
             renewal_posts := renewal_posts st; inserts := inserts st |}).

(* ===================================================================== *)
(** ** api/session_manager.py                                             *)
(* ===================================================================== *)

Section Program.

Context (E : Env).

(** [datetime.now()] *)
Definition datetime_now : M Z := fun st =>
  (Ok (datetime_now_at E (clock_reads st)),
   {| session_manager := session_manager st; database := database st;
      clock_reads := S (clock_reads st);
      availability_posts := availability_posts st;
      renewal_posts := renewal_posts st; inserts := inserts st |}).

(** [self.session.post(url='.../Boka/getCookie', ...)] of the manager's
    own session. *)
Definition post_getCookie : M Outcome := fun st =>
  (Ok (getCookie_at E (renewal_posts st)),
   {| session_manager := session_manager st; database := database st;
      clock_reads := clock_reads st;
      availability_posts := availability_posts st;
      renewal_posts := S (renewal_posts st); inserts := inserts st |}).

(** [self.session.post(url='.../Boka/occasion-bundles', ...)]: a
    transport failure is raised as [RequestException]. *)
Definition post_occasion_bundles : M Response := fun st =>
  let st' :=
    {| session_manager := session_manager st; database := database st;
       clock_reads := clock_reads st;
       availability_posts := S (availability_posts st);
       renewal_posts := renewal_posts st; inserts := inserts st |} in
  match occasion_bundles_at E (availability_posts st) with
  | Responded r => (Ok r, st')
  | ConnectionFailed => (Raise RequestException, st')
  end.

(** [update_cookies]: merge the new pairs over the current ones and stamp
    the renewal time; an empty dictionary changes nothing. *)
Definition update_cookies (new_cookies : gmap string string) : M bool :=
  if bool_decide (new_cookies = ∅) then mret false
  else
    m ← get_manager;
    let merged := new_cookies ∪ current_cookies m in
    now ← datetime_now;
    set_manager {| current_cookies := merged;
                   last_refresh_time := Some now |};;
    mret true.

(** [get_current_cookies]: a copy of the dictionary. *)
Definition get_current_cookies : M (gmap string string) :=
  m ← get_manager; mret (current_cookies m).

(** [get_earliest_cookie_expiration]: the instant encoded in the
    [LoginValid] cookie, when it is there, not empty and well formed. *)
Definition get_earliest_cookie_expiration : M (option Z) :=
  m ← get_manager;
  match current_cookies m !! "LoginValid" with
  | Some login_valid =>
      if String.eqb login_valid EmptyString then mret None
      else mret (strptime E login_valid)
  | None => mret None
  end.

(** [should_refresh_cookies] *)
Definition should_refresh_cookies : M bool :=
  m ← get_manager;
  interval_passed ←
    match last_refresh_time m with
    | Some last => now ← datetime_now; mret (refresh_interval <? now - last)
    | None => mret false
    end;
  if (interval_passed : bool) then mret true
  else
    earliest_expiration ← get_earliest_cookie_expiration;
    match earliest_expiration with
    | Some expiration =>
        now ← datetime_now;
        let time_until_expiration := expiration - now in
        mret (time_until_expiration <? expiry_warning)
    | None => mret false
    end.

(** The body of the loop over [response.headers.items()]: one header. *)
Definition collect_set_cookie (new_cookies : gmap string string)
    (h : string * string) : gmap string string :=
  let (header, value) := h in
  if String.eqb (PyStr.lower header) "set-cookie" then
    if PyStr.contains "=" value then
      let name_value := PyStr.before_char ";" value in
      match PyStr.split_once "=" name_value with
      | Some (name, cookie_value) =>
          <[PyStr.strip name := PyStr.strip cookie_value]> new_cookies
      | None => new_cookies
      end
    else new_cookies
  else new_cookies.

Definition cookies_of_headers (hs : list (string * string))
  : gmap string string :=
  fold_left collect_set_cookie hs ∅.

(** [refresh_cookies_proactively]. Every exception of the round trip is
    caught and turned into [False]. After a successful merge the cookies
    are written to [config.json] through [helpers.io]; a failure of that
    write is caught too and neither the return value nor the manager
    depends on it. *)
Definition refresh_cookies_proactively : M bool :=
  outcome ← post_getCookie;
  match outcome with
  | ConnectionFailed => mret false
  | Responded response =>
      if status_code response =? 200 then
        let new_cookies := cookies_of_headers (headers response) in
        if bool_decide (new_cookies = ∅) then mret false
        else
          m ← get_manager;
          let merged := new_cookies ∪ current_cookies m in
          now ← datetime_now;
          set_manager {| current_cookies := merged;
                         last_refresh_time := Some now |};;
          mret true
      else mret false
  end.

(** [ensure_fresh_cookies] *)
Definition ensure_fresh_cookies : M bool :=
  due ← should_refresh_cookies;
  if (due : bool) then refresh_cookies_proactively else mret true.

(** The patterns of [is_session_expired], searched without regard to
    case. *)
Definition expired_pattern_found (response_text : string) : bool :=
  let t := PyStr.lower response_text in
  (PyStr.search_gap "session" "expired" t
   || PyStr.search_gap "login" "required" t
   || PyStr.contains "unauthorized" t
   || PyStr.contains "401" t
   || PyStr.contains "403" t
   || PyStr.contains "nullreferenceexception" t
   || PyStr.search_gap "status" "500" t)%bool.

(** [is_session_expired(response_text)] with a response text given. *)
Definition is_session_expired (response_text : string) : M bool :=
  due ← should_refresh_cookies;
  if (due : bool) then
    refreshed ← refresh_cookies_proactively;
    mret (negb refreshed)
  else if String.eqb response_text EmptyString then mret false
  else mret (expired_pattern_found response_text).

(* ===================================================================== *)
(** ** helpers/helpers.py                                               *)
(* ===================================================================== *)

(** [ride["occasions"][0][key]] *)
Definition first_occasion_field (ride : json) (key : string) : Res json :=
  occasions ← getitem ride "occasions";
  occasion ← getitem0 occasions;
  getitem occasion key.

(** The dictionary [strip_useless_info] builds for one ride; its items
    are evaluated in the order they are written. *)
Definition strip_ride (ride : json) : Res json :=
  time ← first_occasion_field ride "time";
  location ← first_occasion_field ride "locationName";
  cost ← first_occasion_field ride "cost";
  date ← first_occasion_field ride "date";
  name ← first_occasion_field ride "name";
  mret (JObj [("time", time); ("location", location); ("cost", cost);
              ("date", date); ("name", name)]).

(** [strip_useless_info] *)
Definition strip_useless_info (rides : json) : Res (list json) :=
  items ← iterate rides;
  comprehension strip_ride items.

(* ===================================================================== *)
(** ** api/trafikverket.py                                              *)
(* ===================================================================== *)

(** [_ensure_fresh_session]. The result of [ensure_fresh_cookies] only
    selects a warning. [_update_session_cookies] copies the manager's
    cookies into the cookie jar of the API's own HTTP session; the jar
    decides what is sent, which the scripted outcomes stand for, so the
    copy is not a step of the model. *)
Definition _ensure_fresh_session : M unit :=
  _ ← ensure_fresh_cookies; mret tt.

(** [_handle_session_error] *)
Definition _handle_session_error (response_text : string) : M bool :=
  expired ← is_session_expired response_text;
  if (expired : bool) then refresh_cookies_proactively else mret false.

(** [ride['occasions'][0]['date'] for ride in available_rides] *)
Definition dates_found (available_rides : json) : Res (list json) :=
  items ← iterate available_rides;
  comprehension (fun ride => first_occasion_field ride "date") items.

(** The branch of [get_available_dates] taken when the body decodes and
    its status member equals 200. *)
Definition extract_available (response_data : json)
    (extended_information : bool) : Res json :=
  data ← getitem response_data "data";
  available_rides ← getitem data "bundles";
  dates ← dates_found available_rides;
  mret (if extended_information then available_rides else JList dates).

(** The two places where a failed response is classified. *)
Definition classify_failure (r : Response) : M json :=
  refreshed ← _handle_session_error (text r);
  if (refreshed : bool) then raise SessionExpiredError
  else raise (HTTPStatus (status_code r)).

(** [get_available_dates]. The location identifier only shapes the
    request. *)
Definition get_available_dates (location_id : Z)
    (extended_information : bool) : M json :=
  _ensure_fresh_session;;
  r ← post_occasion_bundles;
  refreshed ← _handle_session_error (text r);
  r ← (if (refreshed : bool) then post_occasion_bundles else mret r);
  if status_code r =? 200 then
    match json_body r with
    | Some response_data =>
        status ← lift (getitem response_data "status");
        if eq_int status 200 then
          lift (extract_available response_data extended_information)
        else classify_failure r
    | None => classify_failure r
    end
  else raise (HTTPStatus (status_code r)).

(** [TrafikverketAPI.refresh_cookies_proactively] *)
Definition api_refresh_cookies_proactively : M bool :=
  refresh_cookies_proactively.

(* ===================================================================== *)
(** ** helpers/database.py                                              *)
(* ===================================================================== *)

(** CURRENT_TIMESTAMP as one INSERT statement evaluates it. *)
Definition current_timestamp : M string := fun st =>
  (Ok (current_timestamp_at E (inserts st)),
   {| session_manager := session_manager st; database := database st;
      clock_reads := clock_reads st;
      availability_posts := availability_posts st;
      renewal_posts := renewal_posts st; inserts := S (inserts st) |}).

(** Binding one Python value to a parameter of a TEXT NOT NULL column. *)
Definition bind_text (v : json) : M string :=
  match sqlite_text E v with
  | Some s => mret s
  | None => raise SqliteError
  end.

(** The INSERT of [store_rides] for one ride: the parameter tuple is
    built first, then the statement runs; [created_at] and [updated_at]
    take their default. *)
Definition insert_ride (examination_type : string) (d : Database)
    (ride : json) : M Database :=
  name ← lift (getitem ride "name");
  date ← lift (getitem ride "date");
  time ← lift (getitem ride "time");
  location ← lift (getitem ride "location");
  cost ← lift (getitem ride "cost");
  name ← bind_text name;
  date ← bind_text date;
  time ← bind_text time;
  location ← bind_text location;
  cost ← bind_text cost;
  stamp ← current_timestamp;
  mret {| rows := rows d ++
                   [{| rowid := sequence d + 1; name := name; date := date;
                       time := time; location := location; cost := cost;
                       examination_type := examination_type;
                       created_at := stamp; updated_at := stamp |}];
          sequence := sequence d + 1 |}.

Fixpoint insert_rides (examination_type : string) (d : Database)
    (rides : list json) : M Database :=
  match rides with
  | [] => mret d
  | ride :: rides' =>
      d' ← insert_ride examination_type d ride;
      insert_rides examination_type d' rides'
  end.

Definition of_type (wanted : string) (r : Row) : bool :=
  String.eqb (examination_type r) wanted.

(** [store_rides]: delete the rows of the examination type, insert the
    new ones, commit. An exception inside the [with] block rolls the
    transaction back: the table is only replaced at the commit. *)
Definition store_rides (rides : list json) (examination_type : string)
  : M unit :=
  d ← get_database;
  let deleted :=
    {| rows := filter (fun r => negb (of_type examination_type r)) (rows d);
       sequence := sequence d |} in
  d' ← insert_rides examination_type deleted rides;
  set_database d'.

(** [a] comes strictly before [b] under ORDER BY date DESC, time DESC;
    text is compared byte by byte. *)
Definition row_before (a b : Row) : bool :=
  match String.compare (date a) (date b) with
  | Gt => true
  | Lt => false
  | Eq => match String.compare (time a) (time b) with
          | Gt => true
          | _ => false
          end
  end.

Fixpoint insert_sorted (r : Row) (l : list Row) : list Row :=
  match l with
  | [] => [r]
  | x :: l' => if row_before x r then x :: insert_sorted r l' else r :: l
  end.

(** The ORDER BY of [get_all_rides]. SQLite leaves the order of rows with
    equal keys open; here they stay in rowid order. *)
Definition order_by_date_time_desc (l : list Row) : list Row :=
  foldr insert_sorted [] l.

(** The dictionary [get_all_rides] builds from one row, as the sequence
    of its items. *)
Definition ride_items (r : Row) : list (string * string) :=
  [("name", name r); ("date", date r); ("time", time r);
   ("location", location r); ("cost", cost r);
   ("created_at", created_at r)].

(** [get_all_rides] *)
Definition get_all_rides (examination_type : string)
  : M (list (list (string * string))) :=
  d ← get_database;
  mret (map ride_items
          (order_by_date_time_desc
             (filter (of_type examination_type) (rows d)))).

(** [get_rides_as_set]: [{tuple(ride.items()) for ride in rides}] *)
Definition get_rides_as_set (examination_type : string)
  : M (gset (list (string * string))) :=
  rides ← get_all_rides examination_type;
  mret (list_to_set rides).

(* ===================================================================== *)
(** ** modes/monitor_rides.py                                           *)
(* ===================================================================== *)

(** [helpers.strip_useless_info(trafikverket_api.get_available_dates(
    location_id, extended_information=True))] *)
Definition fetch_rides (location_id : Z) : M (list json) :=
  rides ← get_available_dates location_id true;
  lift (strip_useless_info rides).

(** The loop [for _ in range(constants.MAX_ATTEMPTS)] for one location,
    with [n] iterations left. [available_rides_list] is extended only by
    a fetch that returned. An exception raised inside the handler of
    [SessionExpiredError] is not caught by the handlers next to it. *)
Fixpoint poll_location (n : nat) (location_id : Z)
    (available_rides_list : list json) : M (list json) :=
  match n with
  | O => mret available_rides_list
  | S n' =>
      r ← attempt (fetch_rides location_id);
      match r with
      | Ok rides => mret (available_rides_list ++ rides)%list
      | Raise SessionExpiredError =>
          refreshed ← api_refresh_cookies_proactively;
          if (refreshed : bool) then
            r' ← attempt (fetch_rides location_id);
            match r' with
            | Ok rides => mret (available_rides_list ++ rides)%list
            | Raise SessionExpiredError => mret available_rides_list
            | Raise e => raise e
            end
          else mret available_rides_list
      | Raise (HTTPStatus _) | Raise RequestException =>
          poll_location n' location_id available_rides_list
      | Raise e => raise e
      end
  end.

(** The loop over [valid_location_ids[examination_type]]. *)
Fixpoint poll_locations (location_ids : list Z)
    (available_rides_list : list json) : M (list json) :=
  match location_ids with
  | [] => mret available_rides_list
  | location_id :: rest =>
      l ← poll_location (MAX_ATTEMPTS E) location_id available_rides_list;
      poll_locations rest l
  end.

(** What one cycle reports and carries to the next one. *)
Record Cycle : Type := {
  new_rides : gset (list (string * string));
  removed_rides : gset (list (string * string));
  current_available_rides : gset (list (string * string))
}.

(** The part of a cycle that follows the polling. The query for the next
    available ride, whose result is only logged, is left out. *)
Definition reconcile (available_rides_list : list json)
    (examination_type : string)
    (last_available_rides : gset (list (string * string))) : M Cycle :=
  match available_rides_list with
  | [] => mret tt
  | _ :: _ => store_rides available_rides_list examination_type
  end;;
  current ← get_rides_as_set examination_type;
  mret {| new_rides := current ∖ last_available_rides;
          removed_rides := last_available_rides ∖ current;
          current_available_rides := current |}.

(** One turn of the outer [while 1] loop of [run]. *)
Definition monitor_cycle (examination_type : string)
    (location_ids : list Z)
    (last_available_rides : gset (list (string * string))) : M Cycle :=
  available_rides_list ← poll_locations location_ids [];
  reconcile available_rides_list examination_type last_available_rides.

End Program.

(* ===================================================================== *)
(** ** Notions used to state the properties                               *)
(* ===================================================================== *)

(** A renewal round trip that fails: no answer, an answer outside the
    2xx range, or an answer without any cookie in its headers. *)
Definition renewal_failed (o : Outcome) : Prop :=
  match o with
  | ConnectionFailed => True
  | Responded r =>
      ~ (200 <= status_code r < 300) \/ cookies_of_headers (headers r) = ∅
  end.

(** A bundle cut down to the first of its occasions: the member
    [occasions] that a lookup finds keeps only the head of its list. *)
Fixpoint keep_first_occasion (members : list (string * json))
  : list (string * json) :=
  match members with
  | [] => []
  | (k, v) :: members' =>
      if String.eqb "occasions" k then
        (k, match v with
            | JList (first :: _) => JList [first]
            | _ => v
            end) :: members'
      else (k, v) :: keep_first_occasion members'
  end.

Definition first_occasion_only (ride : json) : json :=
  match ride with
  | JObj members => JObj (keep_first_occasion members)
  | _ => ride
  end.

(** The five columns of a row that come from the fetched ride. *)
Definition ride_columns (r : Row) : list (string * string) :=
  [("name", name r); ("date", date r); ("time", time r);
   ("location", location r); ("cost", cost r)].

(** The five columns a fetched ride will be stored with, when every one of
    its values can be bound. *)
Definition bound_columns (E : Env) (ride : json)
  : option (list (string * string)) :=
  match getitem ride "name", getitem ride "date", getitem ride "time",
        getitem ride "location", getitem ride "cost" with
  | Ok n, Ok d, Ok t, Ok l, Ok c =>
      match sqlite_text E n, sqlite_text E d, sqlite_text E t,
            sqlite_text E l, sqlite_text E c with
      | Some n, Some d, Some t, Some l, Some c =>
          Some [("name", n); ("date", d); ("time", t);
                ("location", l); ("cost", c)]
      | _, _, _, _, _ => None
      end
  | _, _, _, _, _ => None
  end.

(** The exceptions Python itself raises on a value of the wrong shape. *)
Definition builtin_error (e : Exn) : Prop :=
  match e with
  | KeyError _ | IndexError | TypeError => True
  | _ => False
  end.

(** [m] sends at most [a] availability requests and at most [r] renewal
    requests, and does not touch the database. *)
Definition uses {A : Type} (m : M A) (a r : nat) : Prop :=
  forall st,
    (availability_posts st <= availability_posts (snd (m st))
       <= availability_posts st + a)%nat /\
    (renewal_posts st <= renewal_posts (snd (m st))
       <= renewal_posts st + r)%nat /\
    database (snd (m st)) = database st.

(** A failure of a fetch after which the loop of [run] sleeps and tries
    the location again. *)
Definition tried_again (e : Exn) : Prop :=
  match e with
  | HTTPStatus _ | RequestException => True
  | _ => False
  end.

(** What the cycle fetches for one location, from the state in which its
    polling starts to the state in which it ends, with [n] attempts left:
    the rides of the fetch that returned, when one did, and nothing
    otherwise. The fetches are those of this cycle: each starts in the
    state the previous step left. *)
Inductive fetched (E : Env) (location_id : Z)
  : nat → St → list json → St → Prop :=
| fetched_out_of_attempts st :
    fetched E location_id 0 st [] st
| fetched_at_once n st rides st1 :
    fetch_rides E location_id st = (Ok rides, st1) →
    fetched E location_id (S n) st rides st1
| fetched_on_a_later_attempt n st e st1 items st' :
    fetch_rides E location_id st = (Raise e, st1) →
    tried_again e →
    fetched E location_id n st1 items st' →
    fetched E location_id (S n) st items st'
| fetched_after_renewal n st st1 st2 rides st3 :
    fetch_rides E location_id st = (Raise SessionExpiredError, st1) →
    refresh_cookies_proactively E st1 = (Ok true, st2) →
    fetch_rides E location_id st2 = (Ok rides, st3) →
    fetched E location_id (S n) st rides st3
| fetched_expired_again n st st1 st2 st3 :
    fetch_rides E location_id st = (Raise SessionExpiredError, st1) →
    refresh_cookies_proactively E st1 = (Ok true, st2) →
    fetch_rides E location_id st2 = (Raise SessionExpiredError, st3) →
    fetched E location_id (S n) st [] st3
| fetched_not_renewed n st st1 st2 :
    fetch_rides E location_id st = (Raise SessionExpiredError, st1) →
    refresh_cookies_proactively E st1 = (Ok false, st2) →
    fetched E location_id (S n) st [] st2.

(** The same for the locations of a cycle, one after the other. *)
Inductive fetched_in_cycle (E : Env)
  : list Z → St → list (list json) → St → Prop :=
| fetched_in_cycle_nil st :
    fetched_in_cycle E [] st [] st
| fetched_in_cycle_cons location_id rest st items st1 contributions st' :
    fetched E location_id (MAX_ATTEMPTS E) st items st1 →
    fetched_in_cycle E rest st1 contributions st' →
    fetched_in_cycle E (location_id :: rest) st (items :: contributions) st'.

(** The row carries the five columns the ride is stored with, and the
    examination type. *)
Definition stored_as (E : Env) (wanted : string) (ride : json) (r : Row)
  : Prop :=
  bound_columns E ride = Some (ride_columns r) /\
  examination_type r = wanted.

(** The rows of one examination type, in rowid order. *)
Definition rows_of (wanted : string) (d : Database) : list Row :=
  filter (of_type wanted) (rows d).

(* ===================================================================== *)
(** ** Several callers of [ensure_fresh_cookies] at once                  *)
(* ===================================================================== *)

(** The manager holds no lock: [threading] is only used to start the
    background thread. A caller of [ensure_fresh_cookies] takes two steps
    that other callers can come between: it evaluates
    [should_refresh_cookies] and, when due, sends its POST; later it
    receives the answer and runs the rest of
    [refresh_cookies_proactively] on the manager as it is by then. *)
Module Concurrent.

Inductive Caller : Type :=
| Entering
| Awaiting                   (* its POST to /Boka/getCookie is in flight *)
| Returned (result : bool).

Record Shared : Type := {
  manager : SessionManager;
  callers : list Caller;
  round_trips : nat
}.

Definition local_state (m : SessionManager) : St :=
  {| session_manager := m; database := {| rows := []; sequence := 0 |};
     clock_reads := 0; availability_posts := 0; renewal_posts := 0;
     inserts := 0 |}.

(** Caller [i] takes its next step; [E] holds what the clock and the
    endpoint answer during that step. *)
Definition step (sh : Shared) (ev : nat * Env) : Shared :=
  let (i, E) := ev in
  match callers sh !! i with
  | Some Entering =>
      match should_refresh_cookies E (local_state (manager sh)) with
      | (Ok true, _) =>
          {| manager := manager sh;
             callers := <[i := Awaiting]> (callers sh);
             round_trips := S (round_trips sh) |}
      | (Ok false, _) =>
          {| manager := manager sh;
             callers := <[i := Returned true]> (callers sh);
             round_trips := round_trips sh |}
      | (Raise _, _) => sh
      end
  | Some Awaiting =>
      match refresh_cookies_proactively E (local_state (manager sh)) with
      | (Ok b, st') =>
          {| manager := session_manager st';
             callers := <[i := Returned b]> (callers sh);
             round_trips := round_trips sh |}
      | (Raise _, _) => sh
      end
  | _ => sh
  end.

Definition run (schedule : list (nat * Env)) (sh : Shared) : Shared :=
  fold_left step schedule sh.

Definition start (m : SessionManager) (n : nat) : Shared :=
  {| manager := m; callers := replicate n Entering; round_trips := 0 |}.

Fixpoint count (p : Caller -> bool) (l : list Caller) : nat :=
  match l with
  | [] => O
  | c :: l' => ((if p c then 1 else 0) + count p l')%nat
  end.

Definition is_entering (c : Caller) : bool :=
  match c with Entering => true | _ => false end.

Definition is_awaiting (c : Caller) : bool :=
  match c with Awaiting => true | _ => false end.

(** The number of renewal round trips in flight. *)
Definition in_flight (sh : Shared) : nat := count is_awaiting (callers sh).

(** Renewal is due for [m] in the world [E]. *)
Definition due (E : Env) (m : SessionManager) : Prop :=
  fst (should_refresh_cookies E (local_state m)) = Ok true.

End Concurrent.

(* ===================================================================== *)
(** ** Concrete worlds                                                    *)
(* ===================================================================== *)

Module Scenario.

(** SQLite stores a bound [str] as it is; this instance leaves every
    other kind of value to an error. *)
Definition text_only (v : json) : option string :=
  match v with
  | JStr s => Some s
  | _ => None
  end.

Definition digit (c : ascii) : option Z :=
  let n := Z.of_nat (nat_of_ascii c) in
  if ((48 <=? n) && (n <=? 57))%bool then Some (n - 48) else None.

Definition two_digits (a b : ascii) : option Z :=
  match digit a, digit b with
  | Some x, Some y => Some (10 * x + y)
  | _, _ => None
  end.

Definition is_leap (y : Z) : bool :=
  ((y mod 4 =? 0) && (negb (y mod 100 =? 0) || (y mod 400 =? 0)))%bool.

Definition days_in_month (y m : Z) : Z :=
  if m =? 2 then (if is_leap y then 29 else 28)
  else if ((m =? 4) || (m =? 6) || (m =? 9) || (m =? 11))%bool then 30
  else 31.

(** Days from 1970-01-01 to the given day of the proleptic Gregorian
    calendar. *)
Definition days_from_civil (y m d : Z) : Z :=
  let y' := if m <=? 2 then y - 1 else y in
  let era := y' / 400 in
  let yoe := y' - era * 400 in
  let mp := if 2 <? m then m - 3 else m + 9 in
  let doy := (153 * mp + 2) / 5 + d - 1 in
  let doe := yoe * 365 + yoe / 4 - yoe / 100 + doy in
  era * 146097 + doe - 719468.

(** [datetime.strptime(s, '%Y-%m-%d %H:%M')] on the zero-padded spelling
    YYYY-MM-DD HH:MM, as microseconds since 1970-01-01 00:00. The other
    spellings [strptime] accepts are not needed by the worlds below. *)
Definition strptime_padded (s : string) : option Z :=
  match s with
  | String y1 (String y2 (String y3 (String y4 (String "-"
    (String m1 (String m2 (String "-" (String d1 (String d2 (String " "
    (String h1 (String h2 (String ":" (String n1 (String n2
     EmptyString))))))))))))))) =>
      match two_digits y1 y2, two_digits y3 y4, two_digits m1 m2,
            two_digits d1 d2, two_digits h1 h2, two_digits n1 n2 with
      | Some yh, Some yl, Some m, Some d, Some h, Some n =>
          let y := 100 * yh + yl in
          if ((1 <=? y) && (1 <=? m) && (m <=? 12) && (1 <=? d)
              && (d <=? days_in_month y m) && (h <=? 23) && (n <=? 59))%bool
          then Some (((days_from_civil y m d * 24 + h) * 60 + n)
                     * 60 * 1000000)
          else None
      | _, _, _, _, _, _ => None
      end
  | _ => None
  end.

Definition plain (code : Z) (body : string) (decoded : option json)
  : Response :=
  {| status_code := code; text := body; json_body := decoded;
     headers := [] |}.

(** A world in which the clock stands at [now], every availability
    request is answered by [r] and every renewal request by [renewal]. *)
Definition world_renewing (now : Z) (r renewal : Outcome) : Env :=
  {| strptime := strptime_padded;
     sqlite_text := text_only;
     MAX_ATTEMPTS := 3;
     datetime_now_at := fun _ => now;
     occasion_bundles_at := fun _ => r;
     getCookie_at := fun _ => renewal;
     current_timestamp_at := fun n =>
       match n with
       | O => "2025-01-01 10:00:00"
       | S _ => "2025-01-01 10:20:00"
       end |}.

(** The same world when no renewal request is answered. *)
Definition world (now : Z) (r : Outcome) : Env :=
  world_renewing now r ConnectionFailed.

(** An answer of the renewal endpoint that carries a fresh [LoginValid]. *)
Definition renewed : Response :=
  {| status_code := 200; text := EmptyString; json_body := None;
     headers := [("Content-Type", "application/json");
                 ("Set-Cookie",
                  "LoginValid=2030-01-01 00:00; path=/; HttpOnly")] |}.

Definition state (m : SessionManager) (d : Database) : St :=
  {| session_manager := m; database := d; clock_reads := 0;
     availability_posts := 0; renewal_posts := 0; inserts := 0 |}.

Definition no_cookies : SessionManager :=
  {| current_cookies := ∅; last_refresh_time := None |}.

Definition empty_database : Database := {| rows := []; sequence := 0 |}.

(** The body [{"status":500,"type":"NullReferenceException"}] under
    transport status 200. *)
Definition null_reference : Response :=
  plain 200
    ("{" ++ PyStr.dq ++ "status" ++ PyStr.dq ++ ":500," ++ PyStr.dq
     ++ "type" ++ PyStr.dq ++ ":" ++ PyStr.dq ++ "NullReferenceException"
     ++ PyStr.dq ++ "}")%string
    (Some (JObj [("status", JInt 500);
                 ("type", JStr "NullReferenceException")])).

(** The body [{}] under transport status 200. *)
Definition empty_object : Response := plain 200 "{}" (Some (JObj [])).

(** A bundle without occasions under transport status 200. *)
Definition no_occasions : Response :=
  plain 200 "{...}"
    (Some (JObj [("status", JInt 200);
                 ("data", JObj [("bundles",
                    JList [JObj [("occasions", JList [])]])])])).

Definition server_error : Response :=
  plain 500 "Internal Server Error" None.

(** A manager whose last renewal lies ten minutes before the clock of
    [world (minutes 10)]. *)
Definition renewed_long_ago : SessionManager :=
  {| current_cookies := ∅; last_refresh_time := Some 0 |}.

(** A manager whose [LoginValid] cookie expires eight minutes after
    2025-06-20 16:40. *)
Definition expiring_soon : SessionManager :=
  {| current_cookies := {[ "LoginValid" := "2025-06-20 16:48" ]};
     last_refresh_time := None |}.

Definition at_16_40 : Z :=
  (((days_from_civil 2025 6 20 * 24 + 16) * 60 + 40) * 60 * 1000000).

Definition stockholm : json :=
  JObj [("name", JStr "Kunskapsprov B"); ("date", JStr "2025-01-15");
        ("time", JStr "10:00"); ("location", JStr "Stockholm");
        ("cost", JStr "325kr")].

Definition stockholm_row : Row :=
  {| rowid := 1; name := "Kunskapsprov B"; date := "2025-01-15";
     time := "10:00"; location := "Stockholm"; cost := "325kr";
     examination_type := "Kunskapsprov";
     created_at := "2024-12-31 08:00:00";
     updated_at := "2024-12-31 08:00:00" |}.

Definition one_ride_stored : Database :=
  {| rows := [stockholm_row]; sequence := 1 |}.

(** Store a batch, read the comparable set, store the same batch again,
    read the set again. *)
Definition store_twice (E : Env) (batch : list json)
    (examination_type : string)
  : M (gset (list (string * string)) * gset (list (string * string))) :=
  store_rides E batch examination_type;;
  first ← get_rides_as_set examination_type;
  store_rides E batch examination_type;;
  second ← get_rides_as_set examination_type;
  mret (first, second).

Definition occasion (date time : string) : json :=
  JObj [("date", JStr date); ("time", JStr time);
        ("locationName", JStr "Stockholm"); ("cost", JStr "500kr");
        ("name", JStr "X")].

Definition one_occasion : list json :=
  [JObj [("occasions", JList [occasion "2025-03-01" "09:00"])]].

Definition two_occasions : list json :=
  [JObj [("occasions", JList [occasion "2025-03-01" "09:00";
                               occasion "2025-04-02" "13:30"])]].

End Scenario.

(* ===================================================================== *)
(** ** The rest of api/session_manager.py and helpers/database.py         *)
(* ===================================================================== *)

(** The two regular expressions of the cookie extraction,
    [Cookie:\s*(.+?)(?:\r?\n|$)] and [Set-Cookie:\s*(.+?)(?:\r?\n|$)],
    both compiled with [re.IGNORECASE], as backtracking matchers. *)
Module PyRe.

(** The ASCII literal [p] at the start of [s] under [re.IGNORECASE]; what
    follows it. A character of the text matches a letter of [p] when both
    have the same lower case: below 256 these are the letter itself and its
    capital. (Of all code points only U+212A, U+017F, U+0130 and U+0131
    match an ASCII letter besides; they are not characters of the model,
    and the properties stated over this matcher are about ASCII texts.) *)
Fixpoint strip_prefix_ci (p s : string) : option string :=
  match p, s with
  | EmptyString, _ => Some s
  | String a p', String b s' =>
      if Ascii.eqb (PyStr.lower_char a) (PyStr.lower_char b)
      then strip_prefix_ci p' s' else None
  | String _ _, EmptyString => None
  end.

Definition carriage_return : ascii := "013"%char.

(** [(?:\r?\n|$)] at the start of [s]; what follows it. Without
    [re.MULTILINE] the dollar matches at the end of the text (before a
    final newline the first alternative has matched already). *)
Definition line_end (s : string) : option string :=
  match s with
  | EmptyString => Some EmptyString
  | String c s' =>
      if Ascii.eqb c PyStr.newline then Some s'
      else if Ascii.eqb c carriage_return then
        match s' with
        | String c' s'' => if Ascii.eqb c' PyStr.newline then Some s'' else None
        | EmptyString => None
        end
      else None
  end.

(** [(.+?)(?:\r?\n|$)]: one or more characters other than the newline, as
    few as possible, then the line end. The group and what follows the
    match. *)
Fixpoint lazy_line (s : string) : option (string * string) :=
  match s with
  | EmptyString => None
  | String c s' =>
      if Ascii.eqb c PyStr.newline then None
      else match line_end s' with
           | Some rest => Some (String c EmptyString, rest)
           | None => match lazy_line s' with
                     | Some (g, rest) => Some (String c g, rest)
                     | None => None
                     end
           end
  end.

(** [\s*] in front of it: as much white space as possible, giving back one
    character at a time when what follows cannot match. *)
Fixpoint after_spaces (s : string) : option (string * string) :=
  match s with
  | EmptyString => lazy_line s
  | String c s' =>
      if PyStr.is_space c then
        match after_spaces s' with
        | Some r => Some r
        | None => lazy_line s
        end
      else lazy_line s
  end.

(** The whole pattern at the start of [s], for the header [name]. *)
Definition match_here (name s : string) : option (string * string) :=
  match strip_prefix_ci name s with
  | Some rest => after_spaces rest
  | None => None
  end.

(** [re.search]: the leftmost match. *)
Fixpoint search (name s : string) : option (string * string) :=
  match match_here name s with
  | Some r => Some r
  | None => match s with
            | EmptyString => None
            | String _ s' => search name s'
            end
  end.

(** [re.findall]: the groups of the matches from left to right, each
    search starting where the previous match ended. [skip] counts the
    characters of the current match that are still to be passed. *)
Fixpoint findall (name : string) (skip : nat) (s : string) : list string :=
  match s with
  | EmptyString => []
  | String _ s' =>
      match skip with
      | S k => findall name k s'
      | O => match match_here name s with
             | Some (g, rest) =>
                 g :: findall name
                        (String.length s - String.length rest - 1) s'
             | None => findall name O s'
             end
      end
  end.

(** [s.split(c)] *)
Fixpoint split_char (c : ascii) (s : string) : list string :=
  match s with
  | EmptyString => [EmptyString]
  | String a s' =>
      if Ascii.eqb a c then EmptyString :: split_char c s'
      else match split_char c s' with
           | x :: xs => String a x :: xs
           | [] => [String a EmptyString]
           end
  end.

(** [sep.join(items)] *)
Fixpoint join (sep : string) (items : list string) : string :=
  match items with
  | [] => EmptyString
  | [x] => x
  | x :: rest => (x ++ sep ++ join sep rest)%string
  end.

End PyRe.

(** The body of the loop of [extract_cookies_from_request]: one piece of
    the cookie line. *)
Definition collect_cookie (cookies : gmap string string) (cookie : string)
  : gmap string string :=
  let cookie := PyStr.strip cookie in
  if PyStr.contains "=" cookie then
    match PyStr.split_once "=" cookie with
    | Some (name, value) => <[PyStr.strip name := PyStr.strip value]> cookies
    | None => cookies
    end
  else cookies.

(** [extract_cookies_from_request] *)
Definition extract_cookies_from_request (request_text : string)
  : gmap string string :=
  match PyRe.search "Cookie:" request_text with
  | Some (cookie_string, _) =>
      fold_left collect_cookie (PyRe.split_char ";" cookie_string) ∅
  | None => ∅
  end.

(** The body of the loop of [extract_cookies_from_response]: one match. *)
Definition collect_match (cookies : gmap string string) (found : string)
  : gmap string string :=
  let cookie_string := PyStr.strip found in
  if PyStr.contains "=" cookie_string then
    let name_value := PyStr.before_char ";" cookie_string in
    match PyStr.split_once "=" name_value with
    | Some (name, value) => <[PyStr.strip name := PyStr.strip value]> cookies
    | None => cookies
    end
  else cookies.

(** [extract_cookies_from_response] *)
Definition extract_cookies_from_response (response_text : string)
  : gmap string string :=
  fold_left collect_match (PyRe.findall "Set-Cookie:" 0 response_text) ∅.

(** The cookie line [refresh_cookies_proactively] sends:
    ['; '.join(name=value ...)] over the items of the dictionary, here
    given as the sequence of the items. *)
Definition cookie_string (items : list (string * string)) : string :=
  PyRe.join "; " (map (fun kv => (fst kv ++ "=" ++ snd kv)%string) items).

Definition required_cookies : list string :=
  ["FpsPartnerDeviceIdentifier"; "LoginValid"; "FpsExternalIdentity";
   "ASP.NET_SessionId"].

(** [validate_cookies] *)
Definition validate_cookies (cookies : gmap string string) : bool :=
  forallb (fun cookie_name =>
             match cookies !! cookie_name with
             | Some _ => true
             | None => false
             end) required_cookies.

Section MoreOfTheProgram.

Context (E : Env).

(** [update_cookies_from_request] *)
Definition update_cookies_from_request (request_text : string) : M bool :=
  let new_cookies := extract_cookies_from_request request_text in
  if bool_decide (new_cookies = ∅) then mret false
  else update_cookies E new_cookies.

(** [update_cookies_from_response] *)
Definition update_cookies_from_response (response_text : string) : M bool :=
  let new_cookies := extract_cookies_from_response response_text in
  if bool_decide (new_cookies = ∅) then mret false
  else update_cookies E new_cookies.

(** [TrafikverketAPI.refresh_cookies_from_request] and
    [TrafikverketAPI.refresh_cookies_from_response]: the manager's update,
    then the copy of the cookies into the jar of the API's session. *)
Definition api_refresh_cookies_from_request (request_text : string)
  : M bool :=
  update_cookies_from_request request_text.

Definition api_refresh_cookies_from_response (response_text : string)
  : M bool :=
  update_cookies_from_response response_text.

End MoreOfTheProgram.

(** [a] comes strictly before [b] under ORDER BY date ASC, time ASC. *)
Definition row_earlier (a b : Row) : bool :=
  match String.compare (date a) (date b) with
  | Lt => true
  | Gt => false
  | Eq => match String.compare (time a) (time b) with
          | Lt => true
          | _ => false
          end
  end.

Fixpoint insert_ascending (r : Row) (l : list Row) : list Row :=
  match l with
  | [] => [r]
  | x :: l' => if row_earlier x r then x :: insert_ascending r l' else r :: l
  end.

(** ORDER BY date ASC, time ASC; rows with equal keys stay in rowid
    order. *)
Definition order_by_date_time_asc (l : list Row) : list Row :=
  foldr insert_ascending [] l.

(** [x >= y] on TEXT values. *)
Definition text_ge (x y : string) : bool :=
  match String.compare x y with
  | Lt => false
  | _ => true
  end.

(** [x BETWEEN lo AND hi] on TEXT values. *)
Definition text_between (x lo hi : string) : bool :=
  (text_ge x lo && text_ge hi x)%bool.

(** [get_rides_by_date_range] *)
Definition get_rides_by_date_range (wanted start_date end_date : string)
  : M (list (list (string * string))) :=
  d ← get_database;
  mret (map ride_items
          (order_by_date_time_asc
             (filter (fun r => (of_type wanted r
                                && text_between (date r) start_date end_date)%bool)
                     (rows d)))).

(** [get_rides_by_location] *)
Definition get_rides_by_location (wanted place : string)
  : M (list (list (string * string))) :=
  d ← get_database;
  mret (map ride_items
          (order_by_date_time_asc
             (filter (fun r => (of_type wanted r
                                && String.eqb (location r) place)%bool)
                     (rows d)))).

(** [get_next_available_ride] called with a [current_date]: the first row
    of the ordered selection, if there is one. *)
Definition get_next_available_ride (wanted current_date : string)
  : M (option (list (string * string))) :=
  d ← get_database;
  mret (match order_by_date_time_asc
                (filter (fun r => (of_type wanted r
                                   && text_ge (date r) current_date)%bool)
                        (rows d)) with
        | [] => None
        | row :: _ => Some (ride_items row)
        end).

(** [m] never takes a cookie name away from the manager. *)
Definition keeps_names {A : Type} (m : M A) : Prop :=
  forall st k,
    is_Some (current_cookies (session_manager st) !! k) ->
    is_Some (current_cookies (session_manager (snd (m st))) !! k).

(** No space at either end, nor any of the characters that end a piece of
    a cookie line. *)
Definition tidy (s : string) : Prop :=
  PyStr.lstrip s = s /\ PyStr.rstrip s = s /\
  PyStr.contains ";" s = false /\
  PyStr.contains (String PyStr.newline EmptyString) s = false.

(** A name and a value that the cookie line carries unchanged. *)
Definition tidy_item (kv : string * string) : Prop :=
  tidy (fst kv) /\ tidy (snd kv) /\ PyStr.contains "=" (fst kv) = false.

(** ** Concrete cases for the properties of the second part *)

Module Cases.

(** The value a computation returned, [d] when it raised. *)
Definition returned {A : Type} (d : A) (r : Res A) : A :=
  match r with
  | Ok a => a
  | Raise _ => d
  end.

(** Whether a computation returned. *)
Definition has_returned {A : Type} (r : Res A) : bool :=
  match r with
  | Ok _ => true
  | Raise _ => false
  end.

(** An availability answer with one bundle of two occasions. *)
Definition bundles_found : Response :=
  Scenario.plain 200 "{...}"
    (Some (JObj [("status", JInt 200);
                 ("data", JObj [("bundles",
                    JList Scenario.two_occasions)])])).

(** Every availability request is answered with the bundle. *)
Definition serving : Env := Scenario.world 0 (Responded bundles_found).

(** Every availability request is refused with status 500. *)
Definition refusing : Env :=
  Scenario.world 0 (Responded Scenario.server_error).

(** No request is answered. *)
Definition offline : Env := Scenario.world 0 ConnectionFailed.

(** Every availability request is answered with the body of an expired
    session and every renewal request with a fresh [LoginValid], the clock
    standing at 2025-06-20 16:40. *)
Definition expiring : Env :=
  Scenario.world_renewing Scenario.at_16_40
    (Responded Scenario.null_reference) (Responded Scenario.renewed).

Definition fresh : St :=
  Scenario.state Scenario.no_cookies Scenario.empty_database.

Definition with_one_ride : St :=
  Scenario.state Scenario.no_cookies Scenario.one_ride_stored.

Definition about_to_expire : St :=
  Scenario.state Scenario.expiring_soon Scenario.empty_database.

(** A batch whose second ride has no [name]. *)
Definition second_without_name : list json :=
  [Scenario.stockholm;
   JObj [("date", JStr "2025-01-16"); ("time", JStr "11:00");
         ("location", JStr "Uppsala"); ("cost", JStr "325kr")]].

(** A bundle whose cost is an object, which no statement can bind. *)
Definition cost_as_object : json :=
  JList [JObj [("occasions",
    JList [JObj [("date", JStr "2025-03-01"); ("time", JStr "09:00");
                 ("locationName", JStr "Stockholm");
                 ("cost", JObj [("amount", JInt 500)]);
                 ("name", JStr "X")]])]].

(** A manager that holds the four required cookies. *)
Definition signed_in : SessionManager :=
  {| current_cookies :=
       {[ "FpsPartnerDeviceIdentifier" := "abc";
          "LoginValid" := "2025-06-20 16:48";
          "FpsExternalIdentity" := "def";
          "ASP.NET_SessionId" := "ghi" ]};
     last_refresh_time := None |}.

(** The pieces of a captured request. *)
Definition request_head : string :=
  "POST /Boka/occasion-bundles HTTP/1.1" ++ String PyStr.newline
    ("Accept: application/json" ++ String PyStr.newline EmptyString).

Definition request_tail : string :=
  String PyStr.newline ("Content-Type: application/json"
                        ++ String PyStr.newline EmptyString).

Definition sent_cookies : list (string * string) :=
  [("LoginValid", "2025-06-19 10:00"); ("ASP.NET_SessionId", "s1")].

End Cases.

(* ===================================================================== *)
(** * Properties                                                          *)
(* ===================================================================== *)

Ltac unfold_monad :=
  unfold mbind, mret, M_bind, M_ret, Res_bind, Res_ret, raise, lift, attempt,
    get_manager, set_manager, get_database, set_database, datetime_now,
    post_getCookie in *.

(** ** The session manager *)

Section SessionManagerFacts.

Context (E : Env).

(** C9. Merging a non-empty dictionary with [update_cookies] succeeds, and
    the dictionary [get_current_cookies] returns afterwards has every
    name of the old dictionary and of the new one; a name of the new
    dictionary carries the new value, every other name keeps its old
    value. *)
Theorem update_cookies_merge (new_cookies : gmap string string) (st : St) :
  new_cookies ≠ ∅ →
  ∃ st' after,
    update_cookies E new_cookies st = (Ok true, st') ∧
    get_current_cookies st' = (Ok after, st') ∧
    dom (current_cookies (session_manager st)) ∪ dom new_cookies
      ⊆ dom after ∧
    (∀ k v, new_cookies !! k = Some v → after !! k = Some v) ∧
    (∀ k v, current_cookies (session_manager st) !! k = Some v →
            new_cookies !! k = None → after !! k = Some v).
Proof.
  intros Hne. unfold update_cookies.
  rewrite bool_decide_eq_false_2; [|done].
  unfold get_current_cookies. unfold_monad. simpl.
  eexists _, _. split; [reflexivity|]. split; [reflexivity|]. simpl.
  split; [|split].
  - rewrite dom_union_L.
    apply union_least; [apply union_subseteq_r | apply union_subseteq_l].
  - intros k v Hk. by apply lookup_union_Some_l.
  - intros k v Hk Hn. by rewrite lookup_union_r.
Qed.

(** A renewal either returns [False] and leaves the manager alone, or
    returns [True] after an answer with status 200 and some cookie. *)
Lemma refresh_cookies_proactively_cases (st : St) :
  (fst (refresh_cookies_proactively E st) = Ok false ∧
   session_manager (snd (refresh_cookies_proactively E st))
     = session_manager st)
  ∨ (fst (refresh_cookies_proactively E st) = Ok true ∧
     ∃ r, getCookie_at E (renewal_posts st) = Responded r ∧
          status_code r = 200 ∧ cookies_of_headers (headers r) ≠ ∅).
Proof.
  unfold refresh_cookies_proactively. unfold_monad. simpl.
  destruct (getCookie_at E (renewal_posts st)) as [r|]; [|by left].
  destruct (status_code r =? 200) eqn:Hs; [|by left].
  case_bool_decide; [by left|]. right. split; [done|].
  exists r. split; [done|]. split; [lia|done].
Qed.

(** C7. When the renewal round trip fails (no answer, a status outside
    2xx, or no cookie in the answer) [refresh_cookies_proactively]
    returns [False] and the manager, that is the cookies and the time of
    the last renewal, is what it was before the call. *)
Theorem refresh_failure_leaves_manager (st : St) :
  renewal_failed (getCookie_at E (renewal_posts st)) →
  ∃ st', refresh_cookies_proactively E st = (Ok false, st') ∧
         session_manager st' = session_manager st.
Proof.
  intros Hf. destruct (refresh_cookies_proactively E st) as [r st'] eqn:Hr.
  destruct (refresh_cookies_proactively_cases st)
    as [[H1 H2]|[H1 (r' & Hr' & Hs & Hc)]]; rewrite Hr in *; simpl in *.
  - subst r. eauto.
  - rewrite Hr' in Hf. simpl in Hf. destruct Hf as [Hf|Hf]; [lia|done].
Qed.

(** [get_earliest_cookie_expiration] only reads the manager. *)
Lemma get_earliest_cookie_expiration_pure (st : St) :
  snd (get_earliest_cookie_expiration E st) = st ∧
  ∃ e, fst (get_earliest_cookie_expiration E st) = Ok e.
Proof.
  unfold get_earliest_cookie_expiration. unfold_monad. simpl.
  destruct (current_cookies (session_manager st) !! "LoginValid")
    as [lv|]; simpl; [|eauto].
  destruct (String.eqb lv EmptyString); simpl; eauto.
Qed.

(** C8. [should_refresh_cookies] always returns, leaves the manager and
    the database as they are, and returns [True] exactly when a last
    renewal is recorded and lies more than the renewal interval before
    the clock, or the manager holds a [LoginValid] cookie that is not
    empty, that [strptime] reads as an instant, and that instant is less
    than the warning threshold after the clock. With no renewal recorded
    there is no time since the last renewal and the first alternative is
    false. The interval test reads the clock when a renewal is recorded;
    the expiry test reads it after that. *)
Theorem should_refresh_cookies_iff (st : St) :
  let m := session_manager st in
  let t_interval := datetime_now_at E (clock_reads st) in
  let t_expiry :=
    datetime_now_at E
      (clock_reads st
       + match last_refresh_time m with Some _ => 1 | None => 0 end)%nat in
  ∃ b st',
    should_refresh_cookies E st = (Ok b, st') ∧
    session_manager st' = m ∧ database st' = database st ∧
    (b = true ↔
      (∃ last, last_refresh_time m = Some last ∧
               refresh_interval < t_interval - last) ∨
      (∃ login_valid expiration,
          current_cookies m !! "LoginValid" = Some login_valid ∧
          login_valid ≠ EmptyString ∧
          strptime E login_valid = Some expiration ∧
          expiration - t_expiry < expiry_warning)).
Proof.
  intros m t_interval t_expiry. subst m t_interval t_expiry.
  unfold should_refresh_cookies, get_earliest_cookie_expiration.
  unfold_monad. simpl.
  assert (∀ now b,
    (match current_cookies (session_manager st) !! "LoginValid" with
     | Some lv => if String.eqb lv EmptyString then None else strptime E lv
     | None => None
     end = None ∧ b = false) ∨
    (∃ e, match current_cookies (session_manager st) !! "LoginValid" with
          | Some lv => if String.eqb lv EmptyString then None
                       else strptime E lv
          | None => None
          end = Some e ∧ b = (e - now <? expiry_warning)) →
    (b = true ↔
     ∃ login_valid expiration,
       current_cookies (session_manager st) !! "LoginValid"
         = Some login_valid ∧
       login_valid ≠ EmptyString ∧
       strptime E login_valid = Some expiration ∧
       expiration - now < expiry_warning)) as Hexp.
  { intros now b.
    destruct (current_cookies (session_manager st) !! "LoginValid")
      as [lv|]; [destruct (String.eqb_spec lv EmptyString) as [->|Hne]|].
    - intros [[_ ->]|(e & He & _)]; [|discriminate]. split; [done|].
      intros (lv & e & [= <-] & Hne & _). done.
    - intros [[Hnone ->]|(e & He & ->)].
      + split; [done|]. intros (lv' & e & [= <-] & _ & He & _). congruence.
      + rewrite Z.ltb_lt. split.
        * intros Hlt. by exists lv, e.
        * intros (lv' & e' & [= <-] & _ & He' & Hlt). congruence.
    - intros [[_ ->]|(e & He & _)]; [|discriminate]. split; [done|].
      intros (lv & e & Hlv & _). discriminate. }
  destruct (last_refresh_time (session_manager st)) as [last|] eqn:Hlast;
    simpl.
  - replace (clock_reads st + 1)%nat with (S (clock_reads st)) by lia.
    destruct (refresh_interval <? datetime_now_at E (clock_reads st) - last)
      eqn:Hi; simpl.
    + eexists _, _. split; [reflexivity|]. simpl. do 2 (split; [done|]).
      split; [|done]. intros _. left. exists last. split; [done|lia].
    + destruct (current_cookies (session_manager st) !! "LoginValid")
        as [lv|] eqn:Hlv; simpl;
        [destruct (String.eqb lv EmptyString) eqn:Hempty; simpl;
         [|destruct (strptime E lv) as [e|] eqn:He; simpl]|].
      all: eexists _, _; (split; [reflexivity|]); simpl;
        do 2 (split; [done|]).
      all: etrans;
        [apply (Hexp (datetime_now_at E (S (clock_reads st))));
         rewrite ?Hempty, ?He; first [by left | right; eexists; by split]|].
      all: split; [by right|].
      all: intros [(l & [= <-] & Hlt)|H]; [lia|done].
  - replace (clock_reads st + 0)%nat with (clock_reads st) by lia.
    destruct (current_cookies (session_manager st) !! "LoginValid")
      as [lv|] eqn:Hlv; simpl;
      [destruct (String.eqb lv EmptyString) eqn:Hempty; simpl;
       [|destruct (strptime E lv) as [e|] eqn:He; simpl]|].
    all: eexists _, _; (split; [reflexivity|]); simpl;
      do 2 (split; [done|]).
    all: etrans;
      [apply (Hexp (datetime_now_at E (clock_reads st)));
       rewrite ?Hempty, ?He; first [by left | right; eexists; by split]|].
    all: split; [by right|].
    all: intros [(l & Hl & Hlt)|H]; [done|done].
Qed.

End SessionManagerFacts.

(** The merge at a collision: the stored [LoginValid] is replaced. *)
Lemma update_cookies_merge_witness :
  ∃ st' after,
    update_cookies (Scenario.world 0 ConnectionFailed)
      {[ "LoginValid" := "2025-06-20 17:48" ]}
      (Scenario.state Scenario.expiring_soon Scenario.empty_database)
      = (Ok true, st') ∧
    get_current_cookies st' = (Ok after, st') ∧
    dom (current_cookies Scenario.expiring_soon)
      ∪ dom ({[ "LoginValid" := "2025-06-20 17:48" ]} : gmap string string)
      ⊆ dom after ∧
    (∀ k v, ({[ "LoginValid" := "2025-06-20 17:48" ]} : gmap string string)
              !! k = Some v → after !! k = Some v) ∧
    (∀ k v, current_cookies Scenario.expiring_soon !! k = Some v →
            ({[ "LoginValid" := "2025-06-20 17:48" ]} : gmap string string)
              !! k = None → after !! k = Some v).
Proof.
  apply (update_cookies_merge (Scenario.world 0 ConnectionFailed)
           {[ "LoginValid" := "2025-06-20 17:48" ]}
           (Scenario.state Scenario.expiring_soon Scenario.empty_database)).
  intros H. apply (f_equal (fun m => m !! "LoginValid")) in H.
  vm_compute in H. discriminate H.
Defined.

Lemma refresh_failure_leaves_manager_witness :
  ∃ st',
    refresh_cookies_proactively (Scenario.world 0 ConnectionFailed)
      (Scenario.state Scenario.expiring_soon Scenario.empty_database)
      = (Ok false, st') ∧
    session_manager st' = Scenario.expiring_soon.
Proof.
  apply (refresh_failure_leaves_manager (Scenario.world 0 ConnectionFailed)
           (Scenario.state Scenario.expiring_soon Scenario.empty_database)).
  simpl. exact I.
Defined.

(** The other two failures, and a renewal that succeeds. *)
Example refresh_rejected_by_status :
  refresh_cookies_proactively
    (Scenario.world_renewing 0 ConnectionFailed
       (Responded Scenario.server_error))
    (Scenario.state Scenario.expiring_soon Scenario.empty_database)
  = (Ok false,
     snd (post_getCookie
            (Scenario.world_renewing 0 ConnectionFailed
               (Responded Scenario.server_error))
            (Scenario.state Scenario.expiring_soon Scenario.empty_database))).
Proof. reflexivity. Qed.

Example refresh_without_cookie :
  refresh_cookies_proactively
    (Scenario.world_renewing 0 ConnectionFailed
       (Responded Scenario.empty_object))
    (Scenario.state Scenario.expiring_soon Scenario.empty_database)
  = (Ok false,
     snd (post_getCookie
            (Scenario.world_renewing 0 ConnectionFailed
               (Responded Scenario.empty_object))
            (Scenario.state Scenario.expiring_soon Scenario.empty_database))).
Proof. vm_compute. reflexivity. Qed.

Example refresh_with_cookie :
  let run :=
    refresh_cookies_proactively
      (Scenario.world_renewing (minutes 10) ConnectionFailed
         (Responded Scenario.renewed))
      (Scenario.state Scenario.expiring_soon Scenario.empty_database) in
  fst run = Ok true ∧
  current_cookies (session_manager (snd run)) !! "LoginValid"
    = Some "2030-01-01 00:00" ∧
  last_refresh_time (session_manager (snd run)) = Some (minutes 10).
Proof. vm_compute. repeat split. Qed.

(** The two ways of being due, and a manager that is not. *)
Example due_by_interval :
  fst (should_refresh_cookies (Scenario.world (minutes 10) ConnectionFailed)
         (Scenario.state Scenario.renewed_long_ago Scenario.empty_database))
  = Ok true.
Proof. reflexivity. Qed.

Example due_by_expiry :
  fst (should_refresh_cookies
         (Scenario.world Scenario.at_16_40 ConnectionFailed)
         (Scenario.state Scenario.expiring_soon Scenario.empty_database))
  = Ok true.
Proof. vm_compute. reflexivity. Qed.

Example not_due_at_start :
  fst (should_refresh_cookies (Scenario.world (minutes 10) ConnectionFailed)
         (Scenario.state Scenario.no_cookies Scenario.empty_database))
  = Ok false.
Proof. vm_compute. reflexivity. Qed.

(** ** Extraction from the bundles *)

Lemma assoc_keep_first_occasion (k : string) (o : list (string * json)) :
  assoc k (keep_first_occasion o) =
  if String.eqb k "occasions" then
    match assoc k o with
    | Some (JList (first :: _)) => Some (JList [first])
    | other => other
    end
  else assoc k o.
Proof.
  induction o as [|[k' v] o IH]; cbn [assoc keep_first_occasion].
  - by destruct (String.eqb k "occasions").
  - destruct (String.eqb "occasions" k') eqn:Hk'; cbn [assoc].
    + apply String.eqb_eq in Hk'. subst k'.
      destruct (String.eqb k "occasions") eqn:Hk; [|done].
      by destruct v as [| | | | |[|? ?]|].
    + rewrite IH. destruct (String.eqb k k') eqn:Hkk'; [|done].
      apply String.eqb_eq in Hkk'. subst k'.
      rewrite String.eqb_sym in Hk'. by rewrite Hk'.
Qed.

(** A field of the first occasion is the same in the bundle cut down to
    its first occasion. *)
Lemma first_occasion_field_first_only (ride : json) (key : string) :
  first_occasion_field (first_occasion_only ride) key
  = first_occasion_field ride key.
Proof.
  unfold first_occasion_field. destruct ride as [| | | | | |o]; try done.
  unfold mbind, Res_bind. cbn [first_occasion_only getitem].
  rewrite assoc_keep_first_occasion.
  cbn [String.eqb Ascii.eqb Bool.eqb].
  destruct (assoc "occasions" o) as [v|]; [|done].
  by destruct v as [| | | | |[|? ?]|].
Qed.

Lemma comprehension_ext {A B : Type} (f g : A → Res B) (l : list A) :
  (∀ x, f x = g x) → comprehension f l = comprehension g l.
Proof.
  intros Hfg. induction l as [|x l IH]; simpl; [done|].
  by rewrite Hfg, IH.
Qed.

Lemma comprehension_map {A B C : Type} (f : B → Res C) (h : A → B)
    (l : list A) :
  comprehension f (map h l) = comprehension (fun x => f (h x)) l.
Proof.
  induction l as [|x l IH]; simpl; [done|]. by rewrite IH.
Qed.

Lemma strip_ride_first_only (ride : json) :
  strip_ride (first_occasion_only ride) = strip_ride ride.
Proof.
  unfold strip_ride. by rewrite !first_occasion_field_first_only.
Qed.

(** C10. The dates [get_available_dates] returns without the detailed flag
    and the records [strip_useless_info] makes of what it returns with the
    flag are computed from the first occasion of each bundle alone: two
    lists of bundles that agree once every bundle is cut down to its first
    occasion give the same dates and the same records (or the same
    exception). *)
Theorem only_first_occasion_is_read (rides rides' : list json) :
  map first_occasion_only rides = map first_occasion_only rides' →
  dates_found (JList rides) = dates_found (JList rides') ∧
  strip_useless_info (JList rides) = strip_useless_info (JList rides').
Proof.
  intros Heq. unfold dates_found, strip_useless_info. unfold_monad. simpl.
  split.
  - rewrite <- (comprehension_ext
                  (fun r => first_occasion_field (first_occasion_only r) "date")
                  _ rides (fun r => first_occasion_field_first_only r "date")).
    rewrite <- (comprehension_ext
                  (fun r => first_occasion_field (first_occasion_only r) "date")
                  _ rides' (fun r => first_occasion_field_first_only r "date")).
    rewrite <- !(comprehension_map
                   (fun r => first_occasion_field r "date")
                   first_occasion_only).
    by rewrite Heq.
  - rewrite <- (comprehension_ext (fun r => strip_ride (first_occasion_only r))
                  _ rides strip_ride_first_only).
    rewrite <- (comprehension_ext (fun r => strip_ride (first_occasion_only r))
                  _ rides' strip_ride_first_only).
    rewrite <- !(comprehension_map strip_ride first_occasion_only).
    by rewrite Heq.
Qed.

(** A second occasion in the bundle changes neither the dates nor the
    records. *)
Lemma only_first_occasion_is_read_witness :
  dates_found (JList Scenario.two_occasions)
    = dates_found (JList Scenario.one_occasion) ∧
  strip_useless_info (JList Scenario.two_occasions)
    = strip_useless_info (JList Scenario.one_occasion).
Proof.
  apply (only_first_occasion_is_read Scenario.two_occasions
           Scenario.one_occasion).
  reflexivity.
Defined.

(** ** Round trips of the polling client *)

Ltac frame := intros st; simpl; repeat split; try lia; try reflexivity.

Section RoundTrips.

Context (E : Env).

Lemma uses_ret {A : Type} (x : A) : uses (mret x) 0 0.
Proof. frame. Qed.

Lemma uses_raise {A : Type} (e : Exn) : uses (raise e : M A) 0 0.
Proof. frame. Qed.

Lemma uses_lift {A : Type} (r : Res A) : uses (lift r) 0 0.
Proof. frame. Qed.

Lemma uses_weaken {A : Type} (m : M A) (a r a' r' : nat) :
  uses m a r → (a ≤ a')%nat → (r ≤ r')%nat → uses m a' r'.
Proof.
  intros H Ha Hr st. destruct (H st) as (?&?&?).
  repeat split; try lia; done.
Qed.

Lemma uses_bind {A B : Type} (m : M A) (f : A → M B) (a r a' r' : nat) :
  uses m a r → (∀ x, uses (f x) a' r') → uses (m ≫= f) (a + a') (r + r').
Proof.
  intros Hm Hf st. specialize (Hm st). unfold mbind, M_bind.
  destruct (m st) as [[x|e] st1]; simpl in *.
  - specialize (Hf x st1). destruct Hm as (?&?&Hd), Hf as (?&?&Hd').
    repeat split; try lia. by rewrite Hd'.
  - destruct Hm as (?&?&Hd). repeat split; try lia. done.
Qed.

Lemma uses_datetime_now : uses (datetime_now E) 0 0.
Proof. frame. Qed.

Lemma uses_get_manager : uses get_manager 0 0.
Proof. frame. Qed.

Lemma uses_set_manager (m : SessionManager) : uses (set_manager m) 0 0.
Proof. frame. Qed.

Lemma uses_post_getCookie : uses (post_getCookie E) 0 1.
Proof. frame. Qed.

Lemma uses_post_occasion_bundles : uses (post_occasion_bundles E) 1 0.
Proof.
  intros st. unfold post_occasion_bundles.
  destruct (occasion_bundles_at E (availability_posts st)); simpl;
    repeat split; lia || reflexivity.
Qed.

Ltac step_uses :=
  first
    [ apply uses_ret | apply uses_raise | apply uses_lift
    | apply uses_datetime_now | apply uses_get_manager
    | apply uses_set_manager | apply uses_post_getCookie
    | apply uses_post_occasion_bundles ].

Ltac free := apply (uses_weaken _ 0 0); [step_uses | lia | lia].

Lemma uses_get_earliest_cookie_expiration :
  uses (get_earliest_cookie_expiration E) 0 0.
Proof.
  unfold get_earliest_cookie_expiration.
  apply (uses_bind _ _ 0 0 0 0); [step_uses|]. intros m.
  destruct (current_cookies m !! "LoginValid"); [|step_uses].
  destruct (String.eqb _ _); step_uses.
Qed.

Lemma uses_should_refresh_cookies : uses (should_refresh_cookies E) 0 0.
Proof.
  unfold should_refresh_cookies.
  apply (uses_bind _ _ 0 0 0 0); [step_uses|]. intros m.
  apply (uses_bind _ _ 0 0 0 0).
  - destruct (last_refresh_time m); [|step_uses].
    apply (uses_bind _ _ 0 0 0 0); [step_uses|]. intros; step_uses.
  - intros [|]; [step_uses|].
    apply (uses_bind _ _ 0 0 0 0);
      [apply uses_get_earliest_cookie_expiration|].
    intros [e|]; [|step_uses].
    apply (uses_bind _ _ 0 0 0 0); [step_uses|]. intros; step_uses.
Qed.

(** One renewal is one round trip. *)
Lemma uses_refresh_cookies_proactively :
  uses (refresh_cookies_proactively E) 0 1.
Proof.
  unfold refresh_cookies_proactively.
  apply (uses_bind _ _ 0 1 0 0); [step_uses|]. intros [r|]; [|step_uses].
  destruct (status_code r =? 200); [|step_uses].
  case_bool_decide; [step_uses|].
  apply (uses_bind _ _ 0 0 0 0); [step_uses|]. intros m.
  apply (uses_bind _ _ 0 0 0 0); [step_uses|]. intros now.
  apply (uses_bind _ _ 0 0 0 0); [step_uses|]. intros; step_uses.
Qed.

Lemma uses_ensure_fresh_cookies : uses (ensure_fresh_cookies E) 0 1.
Proof.
  unfold ensure_fresh_cookies.
  apply (uses_bind _ _ 0 0 0 1); [apply uses_should_refresh_cookies|].
  intros [|]; [apply uses_refresh_cookies_proactively | free].
Qed.

Lemma uses_is_session_expired (t : string) :
  uses (is_session_expired E t) 0 1.
Proof.
  unfold is_session_expired.
  apply (uses_bind _ _ 0 0 0 1); [apply uses_should_refresh_cookies|].
  intros [|].
  - apply (uses_bind _ _ 0 1 0 0); [apply uses_refresh_cookies_proactively|].
    intros; step_uses.
  - destruct (String.eqb _ _); free.
Qed.

(** [_handle_session_error] can renew twice: once inside
    [is_session_expired] and once on its own. *)
Lemma uses_handle_session_error (t : string) :
  uses (_handle_session_error E t) 0 2.
Proof.
  unfold _handle_session_error.
  apply (uses_bind _ _ 0 1 0 1); [apply uses_is_session_expired|].
  intros [|]; [apply uses_refresh_cookies_proactively | free].
Qed.

Lemma uses_classify_failure (r : Response) : uses (classify_failure E r) 0 2.
Proof.
  unfold classify_failure.
  apply (uses_bind _ _ 0 2 0 0); [apply uses_handle_session_error|].
  intros [|]; step_uses.
Qed.

Lemma uses_get_available_dates (location_id : Z) (extended : bool) :
  uses (get_available_dates E location_id extended) 2 5.
Proof.
  unfold get_available_dates.
  apply (uses_bind _ _ 0 1 2 4).
  { unfold _ensure_fresh_session.
    apply (uses_bind _ _ 0 1 0 0); [apply uses_ensure_fresh_cookies|].
    intros; step_uses. }
  intros _.
  apply (uses_bind _ _ 1 0 1 4); [step_uses|]. intros r.
  apply (uses_bind _ _ 0 2 1 2); [apply uses_handle_session_error|].
  intros refreshed.
  apply (uses_bind _ _ 1 0 0 2). { destruct refreshed; [step_uses | free]. }
  intros r'.
  destruct (status_code r' =? 200); [|free].
  destruct (json_body r') as [data|]; [|apply uses_classify_failure].
  apply (uses_bind _ _ 0 0 0 2); [step_uses|]. intros status.
  destruct (eq_int status 200); [|apply uses_classify_failure].
  free.
Qed.

(** C5, as the code has it. One call of [get_available_dates] sends the
    availability request at most twice, that is it retries at most once,
    and sends at most five renewal requests: one in
    [_ensure_fresh_session] and up to two in each of the two calls of
    [_handle_session_error] it can make. *)
Theorem get_available_dates_round_trips (location_id : Z)
    (extended : bool) (st : St) :
  let st' := snd (get_available_dates E location_id extended st) in
  (availability_posts st' ≤ availability_posts st + 2)%nat ∧
  (renewal_posts st' ≤ renewal_posts st + 5)%nat.
Proof.
  destruct (uses_get_available_dates location_id extended st) as (?&?&?).
  simpl. lia.
Qed.

End RoundTrips.

(** C5, refuted as stated. With the last renewal ten minutes old, every
    renewal request unanswered and the body
    [{"status":500,"type":"NullReferenceException"}], a single call sends
    five renewal requests. *)
Lemma five_renewals_in_one_call :
  let st' :=
    snd (get_available_dates
           (Scenario.world (minutes 10) (Responded Scenario.null_reference))
           1000 false
           (Scenario.state Scenario.renewed_long_ago Scenario.empty_database))
  in renewal_posts st' = 5%nat ∧ ¬ (renewal_posts st' ≤ 1)%nat.
Proof. vm_compute. split; [reflexivity|]. lia. Qed.

(** ** How the polling client classifies a failed response *)

Section Classification.

Context (E : Env).

Lemma should_refresh_cookies_returns (st : St) :
  ∃ b st', should_refresh_cookies E st = (Ok b, st').
Proof.
  unfold should_refresh_cookies, get_earliest_cookie_expiration.
  unfold_monad. simpl.
  destruct (last_refresh_time (session_manager st)) as [last|]; simpl;
    [destruct (refresh_interval <? _); simpl; [eauto|]|].
  all: destruct (current_cookies (session_manager st) !! "LoginValid")
         as [lv|]; simpl; [|eauto].
  all: destruct (String.eqb lv EmptyString); simpl; [eauto|].
  all: destruct (strptime E lv); simpl; eauto.
Qed.

Lemma refresh_cookies_proactively_returns (st : St) :
  ∃ b st', refresh_cookies_proactively E st = (Ok b, st').
Proof.
  destruct (refresh_cookies_proactively E st) as [r st'] eqn:Hr.
  destruct (refresh_cookies_proactively_cases E st) as [[H _]|[H _]];
    rewrite Hr in H; simpl in H; subst r; eauto.
Qed.

(** [_handle_session_error] returns [True] only after a renewal that
    succeeded. *)
Lemma handle_session_error_returns (t : string) (st : St) :
  ∃ b st', _handle_session_error E t st = (Ok b, st') ∧
    (b = true →
     ∃ st1 st2, refresh_cookies_proactively E st1 = (Ok true, st2)).
Proof.
  unfold _handle_session_error, is_session_expired. unfold_monad.
  destruct (should_refresh_cookies_returns st) as (due & st1 & ->).
  destruct due.
  - destruct (refresh_cookies_proactively_returns st1) as (b1 & st2 & ->).
    destruct b1; simpl.
    + eexists _, _. split; [reflexivity|]. done.
    + destruct (refresh_cookies_proactively_returns st2)
        as (b2 & st3 & Hr).
      rewrite Hr. eexists _, _. split; [reflexivity|].
      intros ->. eauto.
  - destruct (String.eqb t EmptyString); simpl.
    + eexists _, _. split; [reflexivity|]. done.
    + destruct (expired_pattern_found t); simpl.
      * destruct (refresh_cookies_proactively_returns st1)
          as (b2 & st3 & Hr).
        rewrite Hr. eexists _, _. split; [reflexivity|].
        intros ->. eauto.
      * eexists _, _. split; [reflexivity|]. done.
Qed.

Lemma getitem_raises (x : json) (k : string) (e : Exn) :
  getitem x k = Raise e → builtin_error e.
Proof.
  destruct x as [| | | | | |o]; simpl; try (intros [= <-]; exact I).
  destruct (assoc k o); intros [= <-]. exact I.
Qed.

Lemma getitem0_raises (x : json) (e : Exn) :
  getitem0 x = Raise e → builtin_error e.
Proof.
  destruct x as [| | | |[|? ?]|[|? ?]|o]; simpl; intros [= <-]; exact I.
Qed.

Lemma iterate_raises (x : json) (e : Exn) :
  iterate x = Raise e → builtin_error e.
Proof. destruct x; simpl; intros [= <-]; exact I. Qed.

Lemma comprehension_raises {A B : Type} (f : A → Res B) (l : list A)
    (e : Exn) :
  (∀ x e', f x = Raise e' → builtin_error e') →
  comprehension f l = Raise e → builtin_error e.
Proof.
  intros Hf. induction l as [|x l IH]; simpl; [discriminate|].
  destruct (f x) as [y|e'] eqn:Hx.
  - destruct (comprehension f l) as [ys|e'']; [discriminate|].
    intros [= <-]. by apply IH.
  - intros [= <-]. by eapply Hf.
Qed.

Lemma first_occasion_field_raises (ride : json) (key : string) (e : Exn) :
  first_occasion_field ride key = Raise e → builtin_error e.
Proof.
  unfold first_occasion_field. unfold_monad.
  destruct (getitem ride "occasions") as [occasions|e1] eqn:H1.
  - destruct (getitem0 occasions) as [occasion|e2] eqn:H2.
    + apply getitem_raises.
    + intros [= <-]. by eapply getitem0_raises.
  - intros [= <-]. by eapply getitem_raises.
Qed.

Lemma extract_available_raises (response_data : json) (extended : bool)
    (e : Exn) :
  extract_available response_data extended = Raise e → builtin_error e.
Proof.
  unfold extract_available, dates_found. unfold_monad.
  destruct (getitem response_data "data") as [data|e1] eqn:H1;
    [|intros [= <-]; by eapply getitem_raises].
  destruct (getitem data "bundles") as [bundles|e2] eqn:H2;
    [|intros [= <-]; by eapply getitem_raises].
  destruct (iterate bundles) as [items|e3] eqn:H3;
    [|intros [= <-]; by eapply iterate_raises].
  destruct (comprehension _ items) as [dates|e4] eqn:H4; [discriminate|].
  intros [= <-]. eapply comprehension_raises; [|exact H4].
  intros x e'. apply first_occasion_field_raises.
Qed.

Lemma ensure_fresh_session_returns (st : St) :
  ∃ st', _ensure_fresh_session E st = (Ok tt, st').
Proof.
  unfold _ensure_fresh_session, ensure_fresh_cookies. unfold_monad.
  destruct (should_refresh_cookies_returns st) as (due & st1 & ->).
  destruct due; [|eauto].
  destruct (refresh_cookies_proactively_returns st1) as (b & st2 & ->).
  eauto.
Qed.

Lemma bind_run {A B : Type} (m : M A) (f : A → M B) (st : St) :
  (m ≫= f) st = match m st with
                | (Ok a, st') => f a st'
                | (Raise e, st') => (Raise e, st')
                end.
Proof. reflexivity. Qed.

(** The response [get_available_dates] goes on with after the check for
    a session error: the first one, or the one of the single retry. *)
Lemma retry_outcome (r : Response) (refreshed : bool) (st : St) :
  ∃ st',
    (∃ r', (if refreshed then post_occasion_bundles E else mret r) st
           = (Ok r', st') ∧
           (refreshed = false → r' = r) ∧
           (refreshed = true →
            occasion_bundles_at E (availability_posts st) = Responded r'))
    ∨ (if refreshed then post_occasion_bundles E else mret r) st
      = (Raise RequestException, st').
Proof.
  destruct refreshed.
  - unfold post_occasion_bundles.
    destruct (occasion_bundles_at E (availability_posts st)) as [r'|];
      eexists; [left; exists r'|right; reflexivity].
    split; [reflexivity|]. split; [discriminate|reflexivity].
  - eexists. left. exists r.
    split; [reflexivity|]. split; [reflexivity|discriminate].
Qed.

(** [SessionExpiredError] leaves [get_available_dates] only when the
    renewal made while classifying the response succeeded. *)
Lemma session_expired_only_after_renewal (location_id : Z)
    (extended : bool) (st : St) :
  fst (get_available_dates E location_id extended st)
    = Raise SessionExpiredError →
  ∃ st1 st2, refresh_cookies_proactively E st1 = (Ok true, st2).
Proof.
  unfold get_available_dates. rewrite bind_run.
  destruct (ensure_fresh_session_returns st) as (st1 & ->).
  rewrite bind_run. unfold post_occasion_bundles at 1.
  destruct (occasion_bundles_at E (availability_posts st1)) as [r|];
    [|simpl; discriminate].
  rewrite bind_run.
  match goal with
  | |- context [_handle_session_error E (text r) ?s] =>
      destruct (handle_session_error_returns (text r) s)
        as (refreshed & st2 & -> & _)
  end.
  rewrite bind_run.
  destruct (retry_outcome r refreshed st2)
    as (st3 & [(r' & -> & _)| ->]); [|simpl; discriminate].
  destruct (status_code r' =? 200); [|simpl; discriminate].
  unfold classify_failure.
  destruct (json_body r') as [response_data|].
  - rewrite bind_run. unfold lift at 1.
    destruct (getitem response_data "status") as [status|e] eqn:Hstatus.
    2: { simpl. intros [= ->]. by apply getitem_raises in Hstatus. }
    destruct (eq_int status 200).
    + unfold lift.
      destruct (extract_available response_data extended) as [v|e] eqn:Hv;
        simpl; [discriminate|].
      intros [= ->]. by apply extract_available_raises in Hv.
    + rewrite bind_run.
      destruct (handle_session_error_returns (text r') st3)
        as (b & st4 & -> & Hb).
      destruct b; [intros _; by apply Hb|simpl; discriminate].
  - rewrite bind_run.
    destruct (handle_session_error_returns (text r') st3)
      as (b & st4 & -> & Hb).
    destruct b; [intros _; by apply Hb|simpl; discriminate].
Qed.

(** When no renewal request can succeed, [get_available_dates] never
    fails with [SessionExpiredError]. *)
Lemma no_session_expired_when_renewals_fail (location_id : Z)
    (extended : bool) (st : St) :
  (∀ n, renewal_failed (getCookie_at E n)) →
  fst (get_available_dates E location_id extended st)
    ≠ Raise SessionExpiredError.
Proof.
  intros Hfail H.
  destruct (session_expired_only_after_renewal _ _ _ H) as (st1 & st2 & Hr).
  destruct (refresh_cookies_proactively_cases E st1)
    as [[Hfalse _]|[_ (r & Hpost & Hstatus & Hcookies)]].
  - rewrite Hr in Hfalse. discriminate Hfalse.
  - specialize (Hfail (renewal_posts st1)). rewrite Hpost in Hfail.
    simpl in Hfail. destruct Hfail as [Hrange|Hnone]; [lia|done].
Qed.

(** A body that does not decode is classified: the call ends with
    [SessionExpiredError], [HTTPStatus] or a transport failure. *)
Lemma undecodable_body_is_classified (location_id : Z) (extended : bool)
    (st : St) :
  (∀ n r, occasion_bundles_at E n = Responded r → json_body r = None) →
  fst (get_available_dates E location_id extended st)
    = Raise SessionExpiredError ∨
  fst (get_available_dates E location_id extended st)
    = Raise RequestException ∨
  ∃ code, fst (get_available_dates E location_id extended st)
            = Raise (HTTPStatus code).
Proof.
  intros Hnone.
  remember (fst (get_available_dates E location_id extended st)) as res
    eqn:Hrun.
  symmetry in Hrun. revert Hrun.
  unfold get_available_dates. rewrite bind_run.
  destruct (ensure_fresh_session_returns st) as (st1 & ->).
  rewrite bind_run. unfold post_occasion_bundles at 1.
  destruct (occasion_bundles_at E (availability_posts st1)) as [r|] eqn:Hr;
    [|simpl; intros <-; by right; left].
  rewrite bind_run.
  match goal with
  | |- context [_handle_session_error E (text r) ?s] =>
      destruct (handle_session_error_returns (text r) s)
        as (refreshed & st2 & -> & _)
  end.
  rewrite bind_run.
  destruct (retry_outcome r refreshed st2)
    as (st3 & [(r' & -> & Hsame & Hretry)| ->]);
    [|simpl; intros <-; by right; left].
  assert (json_body r' = None) as Hj.
  { destruct refreshed.
    - eapply Hnone. by apply Hretry.
    - rewrite Hsame; [|done]. eapply Hnone. exact Hr. }
  destruct (status_code r' =? 200);
    [|simpl; intros <-; right; right; by eexists].
  rewrite Hj. unfold classify_failure. rewrite bind_run.
  destruct (handle_session_error_returns (text r') st3)
    as (b & st4 & -> & _).
  destruct b; simpl; intros <-; [by left|right; right; by eexists].
Qed.

End Classification.

(** C1, evaluated on the scenario of the specification. The availability
    endpoint answers 200 with the body
    [{"status":500,"type":"NullReferenceException"}] and no renewal request
    succeeds. The docstring of [get_available_dates] announces
    [SessionExpiredError] when the session cannot be refreshed; the call
    ends with [HTTPStatus] carrying 200 instead, because
    [_handle_session_error] answers [False] when its renewal fails. *)
Theorem null_reference_with_failed_renewal :
  let E := Scenario.world 0 (Responded Scenario.null_reference) in
  (∀ n, renewal_failed (getCookie_at E n)) ∧
  ∀ extended,
    fst (get_available_dates E 1000 extended
           (Scenario.state Scenario.no_cookies Scenario.empty_database))
    = Raise (HTTPStatus 200).
Proof.
  split; [intros n; exact I|].
  intros [|]; vm_compute; reflexivity.
Qed.

(** The same body when every renewal request succeeds: the renewal made
    while the retried response is classified succeeds, and this is when
    the call ends with [SessionExpiredError]. *)
Example session_expired_after_successful_renewal :
  fst (get_available_dates
         (Scenario.world_renewing 0 (Responded Scenario.null_reference)
            (Responded Scenario.renewed))
         1000 false
         (Scenario.state Scenario.no_cookies Scenario.empty_database))
  = Raise SessionExpiredError.
Proof. vm_compute. reflexivity. Qed.

(** C4, evaluated. A body that decodes to [{}] has no member [status]: the
    [KeyError] of the lookup is not a [ValueError], passes the handler of
    [get_available_dates] and then the handlers of the polling loop. *)
Theorem missing_status_raises_key_error :
  let E := Scenario.world 0 (Responded Scenario.empty_object) in
  let st := Scenario.state Scenario.no_cookies Scenario.empty_database in
  (∀ extended,
     fst (get_available_dates E 1000 extended st) = Raise (KeyError "status")) ∧
  fst (monitor_cycle E "Kunskapsprov" [1000] ∅ st) = Raise (KeyError "status").
Proof.
  split; [intros [|]|]; vm_compute; reflexivity.
Qed.

(** A bundle whose list of occasions is empty ends the call with
    [IndexError]. *)
Lemma empty_occasions_raise_index_error :
  let E := Scenario.world 0 (Responded Scenario.no_occasions) in
  let st := Scenario.state Scenario.no_cookies Scenario.empty_database in
  ∀ extended, fst (get_available_dates E 1000 extended st) = Raise IndexError.
Proof. intros E st [|]; vm_compute; reflexivity. Qed.

(** ** The table of rides *)

Section DatabaseFacts.

Context (E : Env).

Lemma insert_ride_ok (wanted : string) (d d' : Database) (ride : json)
    (st st' : St) :
  insert_ride E wanted d ride st = (Ok d', st') →
  database st' = database st ∧
  ∃ r, rows d' = (rows d ++ [r])%list ∧ stored_as E wanted ride r.
Proof.
  unfold insert_ride, bind_text, stored_as, bound_columns, current_timestamp.
  unfold_monad.
  destruct (getitem ride "name") as [n|]; [|discriminate].
  destruct (getitem ride "date") as [da|]; [|discriminate].
  destruct (getitem ride "time") as [t|]; [|discriminate].
  destruct (getitem ride "location") as [l|]; [|discriminate].
  destruct (getitem ride "cost") as [c|]; [|discriminate].
  destruct (sqlite_text E n) as [n'|]; [|discriminate].
  destruct (sqlite_text E da) as [da'|]; [|discriminate].
  destruct (sqlite_text E t) as [t'|]; [|discriminate].
  destruct (sqlite_text E l) as [l'|]; [|discriminate].
  destruct (sqlite_text E c) as [c'|]; [|discriminate].
  intros [= <- <-]. simpl. split; [done|]. eexists. split; [reflexivity|].
  done.
Qed.

Lemma insert_rides_ok (wanted : string) (rides : list json) :
  ∀ (d d' : Database) (st st' : St),
    insert_rides E wanted d rides st = (Ok d', st') →
    database st' = database st ∧
    ∃ new, rows d' = (rows d ++ new)%list ∧
           Forall2 (stored_as E wanted) rides new.
Proof.
  induction rides as [|ride rides IH]; intros d d' st st'; simpl.
  - intros [= <- <-]. split; [done|]. exists []. by rewrite app_nil_r.
  - rewrite bind_run.
    destruct (insert_ride E wanted d ride st) as [[d1|e] st1] eqn:H1;
      [|discriminate].
    intros H2. apply insert_ride_ok in H1 as (Hd1 & r & Hr & Hs).
    apply IH in H2 as (Hd2 & new & Hnew & Hall).
    split; [congruence|]. exists (r :: new). split.
    + rewrite Hnew, Hr. by rewrite <- app_assoc.
    + by constructor.
Qed.

Lemma filter_of_type_others (wanted : string) (l : list Row) :
  filter (of_type wanted) (filter (fun r => negb (of_type wanted r)) l) = [].
Proof.
  induction l as [|r l IH]; [done|].
  rewrite (filter_cons (fun r => negb (of_type wanted r))).
  destruct (decide (negb (of_type wanted r))) as [Hn|Hn]; [|done].
  rewrite filter_cons. destruct (decide (of_type wanted r)) as [Hy|Hy];
    [|done].
  destruct (of_type wanted r); done.
Qed.

Lemma filter_other_type (wanted other : string) (l : list Row) :
  other ≠ wanted →
  filter (of_type other) (filter (fun r => negb (of_type wanted r)) l)
  = filter (of_type other) l.
Proof.
  intros Hne. induction l as [|r l IH]; [done|].
  rewrite (filter_cons (fun r => negb (of_type wanted r))).
  rewrite (filter_cons (of_type other) r l).
  destruct (decide (negb (of_type wanted r))) as [Hn|Hn].
  - rewrite filter_cons. by rewrite IH.
  - destruct (decide (of_type other r)) as [Hy|Hy]; [|done].
    exfalso. unfold of_type in *.
    destruct (String.eqb_spec (examination_type r) wanted) as [Hw|Hw];
      [|by apply Hn].
    destruct (String.eqb_spec (examination_type r) other) as [Ho|Ho];
      [congruence|done].
Qed.

Lemma filter_stored (wanted : string) (rides : list json) (new : list Row) :
  Forall2 (stored_as E wanted) rides new →
  filter (of_type wanted) new = new ∧
  ∀ other, other ≠ wanted → filter (of_type other) new = [].
Proof.
  induction 1 as [|ride r rides new [_ Hr] _ [IH1 IH2]]; [done|].
  split.
  - rewrite filter_cons. rewrite IH1.
    destruct (decide (of_type wanted r)) as [|Hn]; [done|].
    exfalso. apply Hn. unfold of_type. rewrite Hr.
    by rewrite String.eqb_refl.
  - intros other Hne. rewrite filter_cons. rewrite (IH2 other Hne).
    destruct (decide (of_type other r)) as [Hy|]; [|done].
    exfalso. unfold of_type in Hy. rewrite Hr in Hy.
    destruct (String.eqb_spec wanted other); [congruence|done].
Qed.

(** [store_rides] that returns has replaced the rows of the examination
    type by the batch, in the order of the batch, and has left the rows
    of every other examination type alone. *)
Lemma store_rides_ok (rides : list json) (wanted : string) (st st' : St) :
  store_rides E rides wanted st = (Ok tt, st') →
  Forall2 (stored_as E wanted) rides (rows_of wanted (database st')) ∧
  ∀ other, other ≠ wanted →
           rows_of other (database st') = rows_of other (database st).
Proof.
  unfold store_rides. rewrite bind_run. unfold get_database at 1.
  rewrite bind_run.
  destruct (insert_rides E wanted _ rides st) as [[d'|e] st1] eqn:Hi;
    [|discriminate].
  unfold set_database. intros [= <-].
  apply insert_rides_ok in Hi as (_ & new & Hnew & Hall).
  simpl in *. unfold rows_of. simpl. rewrite Hnew.
  destruct (filter_stored wanted rides new Hall) as [Hsame Hnone].
  split.
  - rewrite filter_app, filter_of_type_others, Hsame. done.
  - intros other Hne. rewrite filter_app, (Hnone other Hne), app_nil_r.
    by apply filter_other_type.
Qed.

Lemma elem_of_insert_sorted (x r : Row) (l : list Row) :
  x ∈ insert_sorted r l ↔ x = r ∨ x ∈ l.
Proof.
  induction l as [|y l IH]; simpl.
  - rewrite list_elem_of_singleton, elem_of_nil. tauto.
  - destruct (row_before y r); rewrite !elem_of_cons; [|tauto].
    rewrite IH. tauto.
Qed.

(** Ordering keeps the rows. *)
Lemma elem_of_order_by (x : Row) (l : list Row) :
  x ∈ order_by_date_time_desc l ↔ x ∈ l.
Proof.
  unfold order_by_date_time_desc. induction l as [|y l IH]; simpl; [done|].
  rewrite elem_of_insert_sorted, IH, elem_of_cons. tauto.
Qed.

(** The comparable set is the set of the item sequences of the rows of
    the examination type; each carries [created_at]. *)
Lemma get_rides_as_set_rows (wanted : string) (st : St) :
  get_rides_as_set wanted st
  = (Ok (list_to_set (map ride_items (rows_of wanted (database st)))), st).
Proof.
  unfold get_rides_as_set, get_all_rides, rows_of. unfold_monad. simpl.
  f_equal. f_equal. apply set_eq. intros x.
  rewrite !elem_of_list_to_set, !list_elem_of_fmap.
  split; intros (r & -> & Hr); exists r; (split; [done|]);
    by apply elem_of_order_by.
Qed.

End DatabaseFacts.

(** C2, evaluated. The same batch is stored twice, twenty minutes apart.
    The two comparable sets differ although the five fields of the ride are
    the same: each item sequence ends with [created_at], so the ride read
    after the second store is not in the first set and the ride read after
    the first store is not in the second. *)
Theorem identical_batch_stored_twice_differs :
  let E := Scenario.world 0 ConnectionFailed in
  let st := Scenario.state Scenario.no_cookies Scenario.empty_database in
  ∃ first second,
    fst (Scenario.store_twice E [Scenario.stockholm] "Kunskapsprov" st)
      = Ok (first, second) ∧
    first ≠ second ∧ second ∖ first ≠ ∅ ∧ first ∖ second ≠ ∅.
Proof.
  intros E st. unfold Scenario.store_twice.
  rewrite bind_run.
  destruct (store_rides E [Scenario.stockholm] "Kunskapsprov" st)
    as [r1 st1] eqn:H1.
  vm_compute in H1. injection H1 as <- <-.
  rewrite bind_run, get_rides_as_set_rows.
  rewrite bind_run.
  match goal with
  | |- context [store_rides E _ _ ?s] =>
      destruct (store_rides E [Scenario.stockholm] "Kunskapsprov" s)
        as [r2 st2] eqn:H2
  end.
  vm_compute in H2. injection H2 as <- <-.
  rewrite bind_run, get_rides_as_set_rows.
  eexists _, _. split; [reflexivity|].
  unfold rows_of. cbn [database rows].
  repeat match goal with
         | |- context [filter ?P [?r]] => change (filter P [r]) with [r]
         end.
  cbn [map ride_items name date time location cost created_at].
  cbn [list_to_set foldr].
  rewrite !(right_id_L ∅ (∪)).
  assert (∀ a b : list (string * string), a ≠ b →
            ({[a]} : gset (list (string * string))) ≠ {[b]} ∧
            ({[b]} : gset (list (string * string))) ∖ {[a]} ≠ ∅ ∧
            ({[a]} : gset (list (string * string))) ∖ {[b]} ≠ ∅) as Hsets.
  { intros a b Hab. split; [|split].
    - intros Heq. apply Hab. apply (singleton_inj (C := gset _)). done.
    - intros Hempty.
      assert (b ∈ ({[b]} : gset (list (string * string))) ∖ {[a]}) as Hin
        by set_solver.
      rewrite Hempty in Hin. by apply not_elem_of_empty in Hin.
    - intros Hempty.
      assert (a ∈ ({[a]} : gset (list (string * string))) ∖ {[b]}) as Hin
        by set_solver.
      rewrite Hempty in Hin. by apply not_elem_of_empty in Hin. }
  apply Hsets. intros [=].
Qed.

(** ** The monitoring cycle *)

Section MonitorFacts.

Context (E : Env).

Lemma fetch_rides_database (location_id : Z) (st : St) :
  database (snd (fetch_rides E location_id st)) = database st.
Proof.
  unfold fetch_rides. rewrite bind_run.
  destruct (uses_get_available_dates E location_id true st) as (_ & _ & Hd).
  destruct (get_available_dates E location_id true st) as [[v|e] st1];
    exact Hd.
Qed.

Lemma refresh_cookies_proactively_database (st : St) :
  database (snd (refresh_cookies_proactively E st)) = database st.
Proof. by destruct (uses_refresh_cookies_proactively E st) as (_ & _ & Hd). Qed.

(** What a location fetches in a cycle is determined by the state in
    which its polling starts. *)
Lemma fetched_functional (location_id : Z) (n : nat) (st : St)
    (items items' : list json) (st' st'' : St) :
  fetched E location_id n st items st' →
  fetched E location_id n st items' st'' →
  items = items' ∧ st' = st''.
Proof.
  intros H. revert items' st''.
  induction H as [st|n st rides st1 Hf|n st e st1 items st' Hf He _ IH
                 |n st st1 st2 rides st3 Hf Hr Hf2
                 |n st st1 st2 st3 Hf Hr Hf2|n st st1 st2 Hf Hr];
    intros items' st'' H'; inversion H'; subst;
    repeat match goal with
    | H1 : ?x = _, H2 : ?x = _ |- _ =>
        rewrite H1 in H2; injection H2 as ?; subst
    end;
    try done; try (by exfalso);
    try match goal with H : tried_again SessionExpiredError |- _ =>
      destruct H end.
  by apply IH.
Qed.

Lemma poll_location_fetched (n : nat) (location_id : Z) :
  ∀ (acc acc' : list json) (st st' : St),
    poll_location E n location_id acc st = (Ok acc', st') →
    database st' = database st ∧
    ∃ items, acc' = (acc ++ items)%list ∧ fetched E location_id n st items st'.
Proof.
  induction n as [|n IH]; intros acc acc' st st'; cbn [poll_location].
  - intros [= <- <-]. split; [done|]. exists [].
    split; [by rewrite app_nil_r | constructor].
  - rewrite bind_run. unfold attempt at 1.
    pose proof (fetch_rides_database location_id st) as Hd1.
    destruct (fetch_rides E location_id st) as [[rides|e] st1] eqn:Hf;
      simpl in Hd1.
    + intros [= <- <-]. split; [done|]. exists rides.
      split; [done|]. by apply fetched_at_once.
    + destruct e; try discriminate.
      * intros H. apply IH in H as (Hd & items & -> & Hc).
        split; [congruence|]. exists items. split; [done|].
        by eapply fetched_on_a_later_attempt.
      * rewrite bind_run. unfold api_refresh_cookies_proactively.
        pose proof (refresh_cookies_proactively_database st1) as Hd2.
        destruct (refresh_cookies_proactively E st1) as [[b|e] st2] eqn:Hr;
          simpl in Hd2; [|discriminate].
        destruct b.
        -- rewrite bind_run. unfold attempt.
           pose proof (fetch_rides_database location_id st2) as Hd3.
           destruct (fetch_rides E location_id st2) as [[rides|e] st3]
             eqn:Hf2; simpl in Hd3.
           ++ intros [= <- <-]. split; [congruence|]. exists rides.
              split; [done|]. by eapply fetched_after_renewal.
           ++ destruct e; try discriminate.
              intros [= <- <-]. split; [congruence|]. exists [].
              split; [by rewrite app_nil_r|].
              by eapply fetched_expired_again.
        -- intros [= <- <-]. split; [congruence|]. exists [].
           split; [by rewrite app_nil_r|]. by eapply fetched_not_renewed.
      * intros H. apply IH in H as (Hd & items & -> & Hc).
        split; [congruence|]. exists items. split; [done|].
        by eapply fetched_on_a_later_attempt.
Qed.

Lemma poll_locations_fetched (location_ids : list Z) :
  ∀ (acc acc' : list json) (st st' : St),
    poll_locations E location_ids acc st = (Ok acc', st') →
    database st' = database st ∧
    ∃ contributions,
      fetched_in_cycle E location_ids st contributions st' ∧
      acc' = (acc ++ List.concat contributions)%list.
Proof.
  induction location_ids as [|location_id rest IH];
    intros acc acc' st st'; cbn [poll_locations].
  - intros [= <- <-]. split; [done|]. exists [].
    split; [constructor | by rewrite app_nil_r].
  - rewrite bind_run.
    destruct (poll_location E (MAX_ATTEMPTS E) location_id acc st)
      as [[l|e] st1] eqn:H1; [|discriminate].
    intros H2. apply poll_location_fetched in H1 as (Hd1 & items & -> & Hc).
    apply IH in H2 as (Hd2 & contributions & Hall & ->).
    split; [congruence|]. exists (items :: contributions).
    split; [by econstructor|]. simpl. by rewrite <- app_assoc.
Qed.

(** The part of the cycle after the polling. *)
Lemma reconcile_ok (batch : list json) (wanted : string)
    (last : gset (list (string * string))) (out : Cycle) (st st' : St) :
  reconcile E batch wanted last st = (Ok out, st') →
  (batch ≠ [] →
   Forall2 (stored_as E wanted) batch (rows_of wanted (database st'))) ∧
  (batch = [] → database st' = database st) ∧
  (∀ other, other ≠ wanted →
            rows_of other (database st') = rows_of other (database st)) ∧
  current_available_rides out
    = list_to_set (map ride_items (rows_of wanted (database st'))) ∧
  new_rides out = current_available_rides out ∖ last ∧
  removed_rides out = last ∖ current_available_rides out.
Proof.
  unfold reconcile. rewrite bind_run. destruct batch as [|ride batch].
  - unfold mret at 1, M_ret at 1. rewrite bind_run.
    rewrite get_rides_as_set_rows. intros [= <- <-]. simpl.
    repeat split; done.
  - destruct (store_rides E (ride :: batch) wanted st) as [[[]|e] st1]
      eqn:Hs; [|discriminate].
    rewrite bind_run, get_rides_as_set_rows. intros [= <- <-]. simpl.
    apply store_rides_ok in Hs as [Hrows Hothers].
    repeat split; done.
Qed.

(** C3, as the code has it. In a cycle that completes, the batch is made
    of what the cycle fetched for its locations, in their order: for each
    location the rides of the fetch that returned in this cycle, and
    nothing when none did. A batch that is not empty replaces the rows of
    the examination type: afterwards these rows are the rides of the
    batch, in order. An empty batch is not stored and the table stays as
    it was. The rows of the other examination types are never touched. The
    cycle reports the comparable set of the rows and its two differences
    with the previous set. *)
Theorem cycle_stores_nonempty_batch (wanted : string)
    (location_ids : list Z) (last : gset (list (string * string)))
    (out : Cycle) (st st' : St) :
  monitor_cycle E wanted location_ids last st = (Ok out, st') →
  ∃ contributions polled,
    fetched_in_cycle E location_ids st contributions polled ∧
    (List.concat contributions ≠ [] →
     Forall2 (stored_as E wanted) (List.concat contributions)
             (rows_of wanted (database st'))) ∧
    (List.concat contributions = [] → database st' = database st) ∧
    (∀ other, other ≠ wanted →
              rows_of other (database st') = rows_of other (database st)) ∧
    current_available_rides out
      = list_to_set (map ride_items (rows_of wanted (database st'))) ∧
    new_rides out = current_available_rides out ∖ last ∧
    removed_rides out = last ∖ current_available_rides out.
Proof.
  unfold monitor_cycle. rewrite bind_run.
  destruct (poll_locations E location_ids [] st) as [[batch|e] st1] eqn:Hp;
    [|discriminate].
  intros Hr.
  apply poll_locations_fetched in Hp as (Hd & contributions & Hall & ->).
  apply reconcile_ok in Hr as (Hne & Hempty & Hothers & Hcur & Hnew & Hrem).
  simpl in *. exists contributions, st1. rewrite <- Hd.
  repeat split; done.
Qed.

End MonitorFacts.

(** A cycle in which the single location contributes one ride. *)
Lemma cycle_stores_nonempty_batch_witness :
  let E := Scenario.world 0
             (Responded (Scenario.plain 200 "{...}"
                (Some (JObj [("status", JInt 200);
                             ("data", JObj [("bundles",
                                JList Scenario.two_occasions)])])))) in
  let st := Scenario.state Scenario.no_cookies Scenario.one_ride_stored in
  ∃ out st',
    monitor_cycle E "Kunskapsprov" [1000] ∅ st = (Ok out, st') ∧
    ∃ contributions polled,
      fetched_in_cycle E [1000] st contributions polled ∧
      List.length (List.concat contributions) = 1%nat ∧
      (List.concat contributions ≠ [] →
       Forall2 (stored_as E "Kunskapsprov") (List.concat contributions)
               (rows_of "Kunskapsprov" (database st'))) ∧
      (List.concat contributions = [] → database st' = database st) ∧
      (∀ other, other ≠ "Kunskapsprov" →
                rows_of other (database st') = rows_of other (database st)) ∧
      current_available_rides out
        = list_to_set (map ride_items (rows_of "Kunskapsprov" (database st'))) ∧
      new_rides out = current_available_rides out ∖ ∅ ∧
      removed_rides out = ∅ ∖ current_available_rides out.
Proof.
  intros E st.
  destruct (monitor_cycle E "Kunskapsprov" [1000] ∅ st) as [[out|e] st']
    eqn:Hrun.
  - exists out, st'. split; [reflexivity|].
    destruct (cycle_stores_nonempty_batch E "Kunskapsprov" [1000] ∅ out st st'
                Hrun) as (contributions & polled & Hall & H).
    exists contributions, polled. split; [exact Hall|]. split; [|exact H].
    inversion Hall as [|? ? ? items st1 rest ? Hone Hrest]; subst.
    inversion Hrest; subst. simpl. rewrite app_nil_r.
    inversion Hone as [|? ? rides ? Hf|? ? e ? ? ? Hf|? ? ? ? rides ? Hf
                       |? ? ? ? ? Hf|? ? ? ? Hf]; subst;
      vm_compute in Hf; try discriminate Hf.
    by injection Hf as <- <-.
  - exfalso.
    assert (fst (monitor_cycle E "Kunskapsprov" [1000] ∅ st) = Raise e) as H
      by (rewrite Hrun; reflexivity).
    unfold monitor_cycle in H. rewrite bind_run in H.
    destruct (poll_locations E [1000] [] st) as [r1 st1] eqn:Hp.
    vm_compute in Hp. injection Hp as <- <-.
    unfold reconcile in H. rewrite bind_run in H.
    match type of H with
    | context [store_rides E ?b ?w ?s] =>
        destruct (store_rides E b w s) as [r2 st2] eqn:Hs
    end.
    vm_compute in Hs. injection Hs as <- <-.
    rewrite bind_run, get_rides_as_set_rows in H. discriminate H.
Defined.

(** C3, refuted as stated. The table holds one ride and the only location
    fails on each of its attempts: the batch is empty, nothing is stored,
    and the ride of the previous snapshot is still in the table and in the
    comparable set. *)
Lemma failed_cycle_keeps_old_rows :
  let E := Scenario.world 0 (Responded Scenario.server_error) in
  let st := Scenario.state Scenario.no_cookies Scenario.one_ride_stored in
  ∃ out st',
    fst (poll_locations E [1000] [] st) = Ok [] ∧
    monitor_cycle E "Kunskapsprov" [1000] ∅ st = (Ok out, st') ∧
    rows_of "Kunskapsprov" (database st') = [Scenario.stockholm_row] ∧
    ride_items Scenario.stockholm_row ∈ current_available_rides out.
Proof.
  intros E st.
  assert (poll_locations E [1000] [] st
          = (Ok [], snd (poll_locations E [1000] [] st))) as Hp.
  { destruct (poll_locations E [1000] [] st) as [r s] eqn:Hrun.
    assert (r = Ok []) as ->; [|reflexivity].
    change r with (fst (r, s)). rewrite <- Hrun. vm_compute. reflexivity. }
  assert (database (snd (poll_locations E [1000] [] st))
          = Scenario.one_ride_stored) as Hd.
  { vm_compute. reflexivity. }
  unfold monitor_cycle. rewrite bind_run, Hp.
  unfold reconcile. rewrite bind_run.
  unfold mret at 1, M_ret at 1. rewrite bind_run, get_rides_as_set_rows.
  eexists _, _. split; [reflexivity|]. split; [reflexivity|].
  cbn [snd database current_available_rides]. rewrite Hd.
  split; [reflexivity|].
  apply elem_of_list_to_set. apply list_elem_of_fmap.
  exists Scenario.stockholm_row. split; [reflexivity|].
  change (rows_of "Kunskapsprov" Scenario.one_ride_stored)
    with [Scenario.stockholm_row].
  apply list_elem_of_singleton. reflexivity.
Qed.

(** ** Several callers of [ensure_fresh_cookies] *)

Module ConcurrentFacts.

Import Concurrent.

Lemma count_le_length (p : Caller → bool) (l : list Caller) :
  (count p l ≤ List.length l)%nat.
Proof.
  induction l as [|c l IH]; simpl; [lia|]. destruct (p c); lia.
Qed.

Lemma count_replicate_entering (n : nat) :
  count is_entering (replicate n Entering) = n ∧
  count is_awaiting (replicate n Entering) = 0%nat.
Proof. induction n as [|n [IH1 IH2]]; simpl; [done|]. lia. Qed.

(** Replacing one caller moves the count by the weights of the old and
    the new caller. *)
Lemma count_insert (p : Caller → bool) (l : list Caller) (i : nat)
    (c c' : Caller) :
  l !! i = Some c →
  (count p (<[i := c']> l) + (if p c then 1 else 0)
   = count p l + (if p c' then 1 else 0))%nat.
Proof.
  revert i. induction l as [|x l IH]; intros [|i] H; simpl in *;
    try discriminate.
  - injection H as ->. lia.
  - specialize (IH i H). lia.
Qed.

(** One step: a round trip starts only for a caller that was entering,
    and every round trip in flight has been counted. *)
Lemma step_invariant (sh : Shared) (ev : nat * Env) :
  (round_trips sh ≤ round_trips (step sh ev))%nat ∧
  (round_trips (step sh ev) + count is_entering (callers (step sh ev))
   ≤ round_trips sh + count is_entering (callers sh))%nat ∧
  (in_flight sh ≤ round_trips sh →
   in_flight (step sh ev) ≤ round_trips (step sh ev))%nat.
Proof.
  destruct ev as [i E]. unfold step, in_flight.
  destruct (callers sh !! i) as [c|] eqn:Hi; [|lia].
  destruct c as [| |b]; [| |lia].
  - destruct (should_refresh_cookies E (local_state (manager sh)))
      as [[[|]|e] s]; simpl; [| |lia].
    + pose proof (count_insert is_entering _ _ _ Awaiting Hi).
      pose proof (count_insert is_awaiting _ _ _ Awaiting Hi).
      simpl in *. lia.
    + pose proof (count_insert is_entering _ _ _ (Returned true) Hi).
      pose proof (count_insert is_awaiting _ _ _ (Returned true) Hi).
      simpl in *. lia.
  - destruct (refresh_cookies_proactively E (local_state (manager sh)))
      as [[b|e] s]; simpl; [|lia].
    pose proof (count_insert is_entering _ _ _ (Returned b) Hi).
    pose proof (count_insert is_awaiting _ _ _ (Returned b) Hi).
    simpl in *. lia.
Qed.

Lemma run_invariant (schedule : list (nat * Env)) :
  ∀ sh,
    (round_trips sh ≤ round_trips (run schedule sh))%nat ∧
    (round_trips (run schedule sh)
     + count is_entering (callers (run schedule sh))
     ≤ round_trips sh + count is_entering (callers sh))%nat ∧
    (in_flight sh ≤ round_trips sh →
     in_flight (run schedule sh) ≤ round_trips (run schedule sh))%nat.
Proof.
  unfold run. induction schedule as [|ev schedule IH]; intros sh; simpl.
  - lia.
  - destruct (step_invariant sh ev) as (H1 & H2 & H3).
    destruct (IH (step sh ev)) as (H4 & H5 & H6). lia.
Qed.

(** C6, as the code has it. There is no lock. Among [n] callers of
    [ensure_fresh_cookies], under every schedule, each caller sends at
    most one renewal request, so at most [n] are sent and the number in
    flight never exceeds the number sent; when the first caller to enter
    finds the renewal due, at least one is sent. *)
Theorem renewal_round_trips_of_callers (m : SessionManager) (n : nat)
    (schedule : list (nat * Env)) :
  let sh := run schedule (start m n) in
  (round_trips sh ≤ n)%nat ∧
  (in_flight sh ≤ round_trips sh)%nat ∧
  (∀ i E rest,
     schedule = (i, E) :: rest → (i < n)%nat → due E m →
     (1 ≤ round_trips sh)%nat).
Proof.
  intros sh. subst sh.
  destruct (run_invariant schedule (start m n)) as (H1 & H2 & H3).
  destruct (count_replicate_entering n) as [Hn Hz].
  unfold in_flight in *. simpl in *. rewrite Hn in H2. rewrite Hz in H3.
  split; [lia|]. split; [apply H3; lia|].
  intros i E rest -> Hi Hdue.
  change (run ((i, E) :: rest) (start m n))
    with (run rest (step (start m n) (i, E))).
  destruct (run_invariant rest (step (start m n) (i, E))) as (H4 & _).
  assert (round_trips (step (start m n) (i, E)) = 1%nat) as Hone.
  { unfold step, start. cbn [callers manager round_trips].
    rewrite lookup_replicate_2; [|done].
    unfold due in Hdue.
    destruct (should_refresh_cookies E (local_state m)) as [r s].
    simpl in Hdue. subst r. reflexivity. }
  lia.
Qed.

End ConcurrentFacts.

(** Two callers, renewal due and never answered: both requests are sent,
    and the bounds hold with equality. *)
Lemma renewal_round_trips_of_callers_witness :
  let E := Scenario.world (minutes 10) ConnectionFailed in
  let schedule := [(0%nat, E); (1%nat, E)] in
  let sh := Concurrent.run schedule
              (Concurrent.start Scenario.renewed_long_ago 2) in
  (Concurrent.round_trips sh ≤ 2)%nat ∧
  (Concurrent.in_flight sh ≤ Concurrent.round_trips sh)%nat ∧
  (1 ≤ Concurrent.round_trips sh)%nat.
Proof.
  intros E schedule sh.
  destruct (ConcurrentFacts.renewal_round_trips_of_callers
              Scenario.renewed_long_ago 2 schedule) as (H1 & H2 & H3).
  split; [exact H1|]. split; [exact H2|].
  apply (H3 0%nat E [(1%nat, E)]).
  - reflexivity.
  - lia.
  - reflexivity.
Defined.

(** C6, refuted as stated. Renewal is due for two callers. Both evaluate
    [should_refresh_cookies] before either answer arrives: two renewal
    requests are in flight at once, and two round trips have been made when
    both callers have returned. *)
Lemma two_renewals_in_flight :
  let E := Scenario.world (minutes 10) ConnectionFailed in
  let m := Scenario.renewed_long_ago in
  Concurrent.due E m ∧
  (let sh := Concurrent.run [(0%nat, E); (1%nat, E)] (Concurrent.start m 2) in
   Concurrent.in_flight sh = 2%nat ∧ Concurrent.round_trips sh = 2%nat) ∧
  (let sh := Concurrent.run [(0%nat, E); (1%nat, E); (0%nat, E); (1%nat, E)]
               (Concurrent.start m 2) in
   Concurrent.callers sh
     = [Concurrent.Returned false; Concurrent.Returned false] ∧
   Concurrent.round_trips sh = 2%nat ∧ Concurrent.round_trips sh ≠ 1%nat).
Proof.
  split; [reflexivity|]. split.
  - split; reflexivity.
  - split; [reflexivity|]. split; [reflexivity|]. vm_compute. lia.
Qed.

(* ===================================================================== *)
(** * Further properties of the code                                      *)
(* ===================================================================== *)

(** ** Order of the rows *)


Lemma ascii_compare_lt_trans (a b c : ascii) :
  Ascii.compare a b = Lt → Ascii.compare b c = Lt → Ascii.compare a c = Lt.
Proof.
  unfold Ascii.compare. rewrite !N.compare_lt_iff. lia.
Qed.

Lemma ascii_compare_refl (a : ascii) : Ascii.compare a a = Eq.
Proof. unfold Ascii.compare. apply N.compare_refl. Qed.

Lemma string_compare_refl (s : string) : String.compare s s = Eq.
Proof.
  induction s as [|a s IH]; simpl; [done|]. by rewrite ascii_compare_refl.
Qed.

Lemma string_compare_lt_trans (s1 : string) :
  ∀ s2 s3, String.compare s1 s2 = Lt → String.compare s2 s3 = Lt →
           String.compare s1 s3 = Lt.
Proof.
  induction s1 as [|a s1 IH]; intros [|b s2] [|c s3]; simpl; try done.
  destruct (Ascii.compare a b) eqn:Hab; try done.
  - apply Ascii.compare_eq_iff in Hab. subst b.
    destruct (Ascii.compare a c); try done. apply IH.
  - destruct (Ascii.compare b c) eqn:Hbc; try done.
    + apply Ascii.compare_eq_iff in Hbc. subst c. by rewrite Hab.
    + by rewrite (ascii_compare_lt_trans a b c).
Qed.

Lemma string_compare_gt_lt (s1 s2 : string) :
  String.compare s1 s2 = Gt ↔ String.compare s2 s1 = Lt.
Proof.
  rewrite (String.compare_antisym s2 s1).
  destruct (String.compare s1 s2); simpl; split; congruence.
Qed.

(** Trichotomy-based facts on the sort key. *)
Lemma row_earlier_asym (a b : Row) :
  row_earlier a b = true → row_earlier b a = false.
Proof.
  unfold row_earlier.
  rewrite (String.compare_antisym (date b) (date a)).
  rewrite (String.compare_antisym (time b) (time a)).
  destruct (String.compare (date a) (date b)); simpl; try done.
  destruct (String.compare (time a) (time b)); simpl; done.
Qed.

Lemma row_earlier_trans (a b c : Row) :
  row_earlier a b = true → row_earlier b c = true → row_earlier a c = true.
Proof.
  unfold row_earlier.
  destruct (String.compare (date a) (date b)) eqn:Hab; try done.
  - apply String.compare_eq_iff in Hab. rewrite Hab.
    destruct (String.compare (date b) (date c)) eqn:Hbc; try done.
    destruct (String.compare (time a) (time b)) eqn:Tab; try done.
    destruct (String.compare (time b) (time c)) eqn:Tbc; try done.
    by rewrite (string_compare_lt_trans _ _ _ Tab Tbc).
  - destruct (String.compare (date b) (date c)) eqn:Hbc; try done.
    + apply String.compare_eq_iff in Hbc. rewrite <- Hbc, Hab. done.
    + by rewrite (string_compare_lt_trans _ _ _ Hab Hbc).
Qed.

(** Rows that neither comes before the other have the same key. *)
Lemma row_earlier_neither (a b : Row) :
  row_earlier a b = false → row_earlier b a = false →
  date a = date b ∧ time a = time b.
Proof.
  unfold row_earlier.
  rewrite (String.compare_antisym (date b) (date a)).
  rewrite (String.compare_antisym (time b) (time a)).
  destruct (String.compare (date a) (date b)) eqn:Hd; simpl; try done.
  destruct (String.compare (time a) (time b)) eqn:Ht; simpl; try done.
  intros _ _. split; by apply String.compare_eq_iff.
Qed.

Lemma row_earlier_negative_trans (a b c : Row) :
  row_earlier a c = true → row_earlier a b = true ∨ row_earlier b c = true.
Proof.
  intros Hac.
  destruct (row_earlier a b) eqn:Hab; [by left|].
  destruct (row_earlier b c) eqn:Hbc; [by right|]. exfalso.
  destruct (row_earlier b a) eqn:Hba.
  - by rewrite (row_earlier_trans b a c Hba Hac) in Hbc.
  - destruct (row_earlier_neither a b Hab Hba) as [Hd Ht].
    unfold row_earlier in Hac, Hbc. rewrite Hd, Ht in Hac. congruence.
Qed.

Lemma row_before_earlier (a b : Row) : row_before a b = row_earlier b a.
Proof.
  unfold row_before, row_earlier.
  rewrite (String.compare_antisym (date b) (date a)).
  rewrite (String.compare_antisym (time b) (time a)).
  destruct (String.compare (date a) (date b)); simpl; try done.
  destruct (String.compare (time a) (time b)); done.
Qed.

Lemma row_before_asym (a b : Row) :
  row_before a b = true → row_before b a = false.
Proof. rewrite !row_before_earlier. apply row_earlier_asym. Qed.

Lemma row_before_negative_trans (a b c : Row) :
  row_before a c = true → row_before a b = true ∨ row_before b c = true.
Proof.
  rewrite !row_before_earlier. intros H.
  destruct (row_earlier_negative_trans c b a H); auto.
Qed.

(** Insertion keeps a list ordered, for either direction. *)
Lemma insertion_sorted (before : Row → Row → bool)
    (ins : Row → list Row → list Row) :
  (∀ a b, before a b = true → before b a = false) →
  (∀ a b c, before a c = true → before a b = true ∨ before b c = true) →
  (∀ r, ins r [] = [r]) →
  (∀ r x l, ins r (x :: l) = if before x r then x :: ins r l else r :: x :: l) →
  ∀ r l,
    StronglySorted (fun a b => before b a = false) l →
    StronglySorted (fun a b => before b a = false) (ins r l) ∧
    ins r l ≡ₚ r :: l.
Proof.
  intros Hasym Hneg Hnil Hcons r l. induction l as [|x l IH]; intros Hs.
  - rewrite Hnil. split; [|done]. repeat constructor.
  - rewrite Hcons. apply StronglySorted_inv in Hs as [Hs Hx].
    destruct (IH Hs) as [IHs IHp].
    destruct (before x r) eqn:Hxr.
    + split.
      * constructor; [done|]. rewrite IHp. constructor; [|done].
        by apply Hasym.
      * rewrite IHp. apply Permutation_swap.
    + split; [|done]. constructor; [by constructor|].
      constructor; [done|]. rewrite Forall_forall in Hx |- *.
      intros y Hy. destruct (before y r) eqn:Hyr; [|done].
      destruct (Hneg y x r Hyr) as [H|H]; [|congruence].
      rewrite (Hx y Hy) in H. done.
Qed.

Lemma order_by_date_time_asc_sorted (l : list Row) :
  StronglySorted (fun a b => row_earlier b a = false)
                 (order_by_date_time_asc l) ∧
  order_by_date_time_asc l ≡ₚ l.
Proof.
  unfold order_by_date_time_asc. induction l as [|r l [IHs IHp]]; simpl.
  - split; [constructor|done].
  - destruct (insertion_sorted row_earlier insert_ascending
                row_earlier_asym row_earlier_negative_trans
                (fun _ => eq_refl) (fun _ _ _ => eq_refl) r _ IHs) as [Hs Hp].
    split; [done|]. by rewrite Hp, IHp.
Qed.

Lemma order_by_date_time_desc_sorted (l : list Row) :
  StronglySorted (fun a b => row_before b a = false)
                 (order_by_date_time_desc l) ∧
  order_by_date_time_desc l ≡ₚ l.
Proof.
  unfold order_by_date_time_desc. induction l as [|r l [IHs IHp]]; simpl.
  - split; [constructor|done].
  - destruct (insertion_sorted row_before insert_sorted
                row_before_asym row_before_negative_trans
                (fun _ => eq_refl) (fun _ _ _ => eq_refl) r _ IHs) as [Hs Hp].
    split; [done|]. by rewrite Hp, IHp.
Qed.

(** X1. [get_all_rides] returns every row of the examination type exactly once
    and latest first: no ride is followed by one with a later date, or the
    same date and a later time. *)
Theorem get_all_rides_latest_first (wanted : string) (st : St) :
  ∃ l,
    get_all_rides wanted st = (Ok (map ride_items l), st) ∧
    l ≡ₚ rows_of wanted (database st) ∧
    StronglySorted (fun a b => row_before b a = false) l.
Proof.
  unfold get_all_rides. unfold_monad. simpl.
  destruct (order_by_date_time_desc_sorted
              (filter (of_type wanted) (rows (database st)))) as [Hs Hp].
  eexists. split; [reflexivity|]. split; done.
Qed.

(** X2. [get_next_available_ride] returns [None] exactly when no row of the
    examination type has a date on or after [current_date]; otherwise it
    returns such a row, and no other such row comes earlier by date and
    time. *)
Theorem get_next_available_ride_earliest (wanted current_date : string)
    (st : St) :
  let upcoming r :=
    of_type wanted r = true ∧ text_ge (date r) current_date = true in
  (∃ row,
     get_next_available_ride wanted current_date st
       = (Ok (Some (ride_items row)), st) ∧
     row ∈ rows (database st) ∧ upcoming row ∧
     ∀ r, r ∈ rows (database st) → upcoming r → row_earlier r row = false)
  ∨ (get_next_available_ride wanted current_date st = (Ok None, st) ∧
     ∀ r, r ∈ rows (database st) → ¬ upcoming r).
Proof.
  intros upcoming. unfold get_next_available_ride. unfold_monad. simpl.
  set (sel := filter _ (rows (database st))).
  assert (∀ r, r ∈ sel ↔ r ∈ rows (database st) ∧ upcoming r) as Hsel.
  { intros r. unfold sel. rewrite list_elem_of_filter. unfold upcoming.
    destruct (of_type wanted r), (text_ge (date r) current_date); simpl;
      intuition (done || congruence). }
  destruct (order_by_date_time_asc_sorted sel) as [Hs Hp].
  destruct (order_by_date_time_asc sel) as [|row rest] eqn:Ho.
  - right. split; [done|]. intros r Hr Hu.
    assert (r ∈ sel) as Hin by (apply Hsel; done).
    rewrite <- Hp in Hin. by apply elem_of_nil in Hin.
  - left. exists row. split; [done|].
    assert (row ∈ sel) as Hrow by (rewrite <- Hp; left).
    apply Hsel in Hrow as [Hin Hu]. split; [done|]. split; [done|].
    intros r Hr Hur. assert (r ∈ sel) as Hrs by (apply Hsel; done).
    rewrite <- Hp in Hrs. apply StronglySorted_inv in Hs as [_ Hall].
    apply elem_of_cons in Hrs as [->|Hrs].
    + destruct (row_earlier row row) eqn:Hrr; [|done].
      by rewrite (row_earlier_asym _ _ Hrr) in Hrr.
    + rewrite Forall_forall in Hall. by apply Hall.
Qed.

(** ** Queries and replacement of a category *)


Lemma text_ge_trans (x y z : string) :
  text_ge x y = true → text_ge y z = true → text_ge x z = true.
Proof.
  unfold text_ge.
  destruct (String.compare x y) eqn:Hxy; try done;
    destruct (String.compare y z) eqn:Hyz; try done;
    destruct (String.compare x z) eqn:Hxz; try done; intros _ _; exfalso.
  - apply String.compare_eq_iff in Hxy, Hyz. subst.
    by rewrite string_compare_refl in Hxz.
  - apply String.compare_eq_iff in Hxy. subst. congruence.
  - apply String.compare_eq_iff in Hyz. subst. congruence.
  - apply string_compare_gt_lt in Hxy, Hyz.
    pose proof (string_compare_lt_trans _ _ _ Hyz Hxy) as H.
    apply string_compare_gt_lt in H. congruence.
Qed.

(** X3. [get_rides_by_location] returns exactly the rows of the examination
    type whose location is the requested one, each once, earliest first. *)
Theorem get_rides_by_location_exact (wanted place : string) (st : St) :
  ∃ l,
    get_rides_by_location wanted place st = (Ok (map ride_items l), st) ∧
    l ≡ₚ filter (fun r => (of_type wanted r && String.eqb (location r) place)%bool)
          (rows (database st)) ∧
    (∀ r, r ∈ l ↔ r ∈ rows (database st) ∧ examination_type r = wanted ∧
                  location r = place) ∧
    StronglySorted (fun a b => row_earlier b a = false) l.
Proof.
  unfold get_rides_by_location. unfold_monad. simpl.
  set (sel := filter _ (rows (database st))).
  destruct (order_by_date_time_asc_sorted sel) as [Hs Hp].
  eexists. split; [reflexivity|]. split; [done|]. split; [|done].
  intros r. rewrite Hp. unfold sel. rewrite list_elem_of_filter.
  unfold of_type.
  destruct (String.eqb_spec (examination_type r) wanted),
           (String.eqb_spec (location r) place); simpl; intuition done.
Qed.

(** X4. [get_rides_by_date_range] returns exactly the rows of the examination
    type whose date lies between the two bounds (both included, compared
    as text), each as many times as the table holds it, earliest first;
    with the end before the start it returns nothing. *)
Theorem get_rides_by_date_range_exact (wanted start_date end_date : string)
    (st : St) :
  ∃ l,
    get_rides_by_date_range wanted start_date end_date st
      = (Ok (map ride_items l), st) ∧
    l ≡ₚ filter (fun r => (of_type wanted r
                           && text_between (date r) start_date end_date)%bool)
          (rows (database st)) ∧
    (∀ r, r ∈ l ↔ r ∈ rows (database st) ∧ examination_type r = wanted ∧
                  String.compare (date r) start_date ≠ Lt ∧
                  String.compare end_date (date r) ≠ Lt) ∧
    StronglySorted (fun a b => row_earlier b a = false) l ∧
    (String.compare end_date start_date = Lt → l = []).
Proof.
  unfold get_rides_by_date_range. unfold_monad. simpl.
  set (sel := filter _ (rows (database st))).
  destruct (order_by_date_time_asc_sorted sel) as [Hs Hp].
  assert (∀ r, r ∈ sel ↔ r ∈ rows (database st) ∧ examination_type r = wanted ∧
                  String.compare (date r) start_date ≠ Lt ∧
                  String.compare end_date (date r) ≠ Lt) as Hsel.
  { intros r. unfold sel. rewrite list_elem_of_filter.
    unfold of_type, text_between, text_ge.
    destruct (String.eqb_spec (examination_type r) wanted),
             (String.compare (date r) start_date),
             (String.compare end_date (date r)); simpl; intuition done. }
  eexists. split; [reflexivity|]. split; [done|]. split; [|split; [done|]].
  - intros r. rewrite Hp. apply Hsel.
  - intros Hlt. destruct (order_by_date_time_asc sel) as [|r rest] eqn:Ho;
      [done|]. exfalso.
    assert (r ∈ sel) as Hr by (rewrite <- Hp; left).
    apply Hsel in Hr as (_ & _ & H1 & H2).
    assert (text_ge end_date start_date = true) as Hge.
    { apply (text_ge_trans _ (date r)); unfold text_ge.
      - by destruct (String.compare end_date (date r)).
      - by destruct (String.compare (date r) start_date). }
    unfold text_ge in Hge. by rewrite Hlt in Hge.
Qed.

Section StoreFacts.

Context (E : Env).

Lemma insert_ride_frame (wanted : string) (d : Database) (ride : json)
    (st : St) :
  database (snd (insert_ride E wanted d ride st)) = database st ∧
  session_manager (snd (insert_ride E wanted d ride st)) = session_manager st ∧
  ∀ e, fst (insert_ride E wanted d ride st) = Raise e →
       builtin_error e ∨ e = SqliteError.
Proof.
  unfold insert_ride, bind_text, current_timestamp. unfold_monad.
  destruct (getitem ride "name") as [n|e1] eqn:H1; simpl;
    [|split; [done|split; [done|intros e [= <-]; left; by eapply getitem_raises]]].
  destruct (getitem ride "date") as [da|e2] eqn:H2; simpl;
    [|split; [done|split; [done|intros e [= <-]; left; by eapply getitem_raises]]].
  destruct (getitem ride "time") as [t|e3] eqn:H3; simpl;
    [|split; [done|split; [done|intros e [= <-]; left; by eapply getitem_raises]]].
  destruct (getitem ride "location") as [l|e4] eqn:H4; simpl;
    [|split; [done|split; [done|intros e [= <-]; left; by eapply getitem_raises]]].
  destruct (getitem ride "cost") as [c|e5] eqn:H5; simpl;
    [|split; [done|split; [done|intros e [= <-]; left; by eapply getitem_raises]]].
  destruct (sqlite_text E n); simpl;
    [|split; [done|split; [done|intros e [= <-]; by right]]].
  destruct (sqlite_text E da); simpl;
    [|split; [done|split; [done|intros e [= <-]; by right]]].
  destruct (sqlite_text E t); simpl;
    [|split; [done|split; [done|intros e [= <-]; by right]]].
  destruct (sqlite_text E l); simpl;
    [|split; [done|split; [done|intros e [= <-]; by right]]].
  destruct (sqlite_text E c); simpl;
    [|split; [done|split; [done|intros e [= <-]; by right]]].
  split; [done|]. split; [done|]. intros e [=].
Qed.

Lemma insert_rides_frame (wanted : string) (rides : list json) :
  ∀ (d : Database) (st : St),
    database (snd (insert_rides E wanted d rides st)) = database st ∧
    session_manager (snd (insert_rides E wanted d rides st))
      = session_manager st ∧
    ∀ e, fst (insert_rides E wanted d rides st) = Raise e →
         builtin_error e ∨ e = SqliteError.
Proof.
  induction rides as [|ride rides IH]; intros d st; simpl.
  - split; [done|]. split; [done|]. intros e [=].
  - rewrite bind_run.
    destruct (insert_ride_frame wanted d ride st) as (Hd & Hm & He).
    destruct (insert_ride E wanted d ride st) as [[d1|e1] st1]; simpl in *.
    + destruct (IH d1 st1) as (Hd' & Hm' & He').
      split; [congruence|]. split; [congruence|]. done.
    + split; [done|]. split; [done|]. intros e [= <-]. by apply He.
Qed.

(** X5. [store_rides] is all or nothing: when it raises, on a ride without
    one of the five keys or with a value that cannot be bound, the table
    and the manager are what they were, also when rides before the bad one
    had been inserted; the exception is one of Python's own or the one of
    the binding. *)
Theorem store_rides_failure_rolls_back (rides : list json) (wanted : string)
    (st st' : St) (e : Exn) :
  store_rides E rides wanted st = (Raise e, st') →
  database st' = database st ∧
  session_manager st' = session_manager st ∧
  (builtin_error e ∨ e = SqliteError).
Proof.
  unfold store_rides. rewrite bind_run. unfold get_database at 1.
  rewrite bind_run.
  match goal with
  | |- context [insert_rides E wanted ?d rides st] =>
      destruct (insert_rides_frame wanted rides d st) as (Hd & Hm & He);
      destruct (insert_rides E wanted d rides st) as [[d'|e'] st1]
  end; simpl in *; [discriminate|].
  intros [= <- <-]. split; [done|]. split; [done|]. by apply He.
Qed.

(** X6. [store_rides] with the empty list returns and leaves no row of the
    examination type; the other examination types keep their rows. *)
Theorem store_rides_empty_clears (wanted : string) (st : St) :
  ∃ st',
    store_rides E [] wanted st = (Ok tt, st') ∧
    rows_of wanted (database st') = [] ∧
    ∀ other, other ≠ wanted →
             rows_of other (database st') = rows_of other (database st).
Proof.
  assert (∃ st', store_rides E [] wanted st = (Ok tt, st')) as [st' Hs].
  { unfold store_rides. unfold_monad. simpl. eauto. }
  exists st'. split; [done|].
  apply store_rides_ok in Hs as [Hall Hothers].
  split; [|done]. by apply Forall2_nil_inv_l in Hall.
Qed.

(** X7. After [store_rides] has returned, [get_all_rides] for the same
    examination type returns as many records as were stored, and their
    first five items are the five bound fields of the stored rides, each
    once; for every other examination type it returns what it returned
    before. *)
Theorem get_all_rides_after_store_rides (rides : list json)
    (wanted : string) (st st' : St) :
  store_rides E rides wanted st = (Ok tt, st') →
  ∃ l,
    get_all_rides wanted st' = (Ok l, st') ∧
    List.length l = List.length rides ∧
    map (take 5) l ≡ₚ omap (bound_columns E) rides ∧
    ∀ other, other ≠ wanted →
      fst (get_all_rides other st') = fst (get_all_rides other st).
Proof.
  intros Hs. apply store_rides_ok in Hs as [Hall Hothers].
  destruct (order_by_date_time_desc_sorted
              (filter (of_type wanted) (rows (database st')))) as [_ Hp].
  fold (rows_of wanted (database st')) in Hp.
  set (l := order_by_date_time_desc (rows_of wanted (database st'))) in *.
  exists (map ride_items l). split; [reflexivity|].
  assert (map ride_columns (rows_of wanted (database st'))
          = omap (bound_columns E) rides) as Hcols.
  { clear Hp. induction Hall as [|ride r rides rs [Hb _] _ IH]; [done|].
    simpl. rewrite Hb. by rewrite IH. }
  split; [|split].
  - rewrite length_map, Hp. symmetry. by eapply Forall2_length.
  - rewrite <- Hcols, <- Hp. rewrite <- list_fmap_compose.
    apply Permutation_map. done.
  - intros other Hne. unfold get_all_rides. unfold_monad. simpl.
    fold (rows_of other (database st')). fold (rows_of other (database st)).
    by rewrite (Hothers other Hne).
Qed.
End StoreFacts.

(** ** What a call of the polling client ends with *)

Section CallFacts.

Context (E : Env).

Lemma ensure_fresh_session_run (st : St) :
  ∃ st1, _ensure_fresh_session E st = (Ok tt, st1) ∧
         availability_posts st1 = availability_posts st ∧
         (renewal_posts st ≤ renewal_posts st1 ≤ renewal_posts st + 1)%nat.
Proof.
  destruct (ensure_fresh_session_returns E st) as (st1 & H).
  exists st1. split; [done|].
  destruct (uses_ensure_fresh_cookies E st) as ((Ha1 & Ha2) & (Hr0 & Hr) & _).
  assert (snd (_ensure_fresh_session E st) = snd (ensure_fresh_cookies E st))
    as Hsnd.
  { unfold _ensure_fresh_session. rewrite bind_run.
    by destruct (ensure_fresh_cookies E st) as [[b|e] s]. }
  rewrite H in Hsnd. simpl in Hsnd. rewrite Hsnd. lia.
Qed.

Lemma handle_session_error_run (t : string) (st : St) :
  ∃ b st', _handle_session_error E t st = (Ok b, st') ∧
           availability_posts st' = availability_posts st ∧
           (b = true →
            ∃ s1 s2, refresh_cookies_proactively E s1 = (Ok true, s2)).
Proof.
  destruct (handle_session_error_returns E t st) as (b & st' & H & Hb).
  exists b, st'. split; [done|]. split; [|done].
  destruct (uses_handle_session_error E t st) as (Ha & _).
  rewrite H in Ha. simpl in Ha. lia.
Qed.

Lemma post_occasion_bundles_run (st : St) :
  ∃ st', availability_posts st' = S (availability_posts st) ∧
    match occasion_bundles_at E (availability_posts st) with
    | Responded r => post_occasion_bundles E st = (Ok r, st')
    | ConnectionFailed =>
        post_occasion_bundles E st = (Raise RequestException, st')
    end.
Proof.
  unfold post_occasion_bundles.
  destruct (occasion_bundles_at E (availability_posts st));
    eexists; (split; [|reflexivity]); done.
Qed.

(** The response the call ends with, and the number of the request that
    it answers. *)
Lemma last_response (location_id : Z) (extended : bool) (st : St) :
  (∃ st', get_available_dates E location_id extended st
            = (Raise RequestException, st')) ∨
  ∃ n r st3,
    occasion_bundles_at E n = Responded r ∧
    (n = availability_posts st ∨
     n = S (availability_posts st) ∧
     ∃ s1 s2, refresh_cookies_proactively E s1 = (Ok true, s2)) ∧
    availability_posts st3 = S n ∧
    get_available_dates E location_id extended st
    = (if status_code r =? 200 then
         match json_body r with
         | Some response_data =>
             status ← lift (getitem response_data "status");
             if eq_int status 200 then
               lift (extract_available response_data extended)
             else classify_failure E r
         | None => classify_failure E r
         end
       else raise (HTTPStatus (status_code r))) st3.
Proof.
  unfold get_available_dates. rewrite bind_run.
  destruct (ensure_fresh_session_run st) as (st1 & -> & Ha1 & _).
  rewrite bind_run.
  destruct (post_occasion_bundles_run st1) as (st2 & Ha2 & Hpost).
  rewrite Ha1 in Hpost.
  destruct (occasion_bundles_at E (availability_posts st)) as [r|] eqn:Hr;
    rewrite Hpost; [|left; eauto].
  rewrite bind_run.
  destruct (handle_session_error_run (text r) st2)
    as (refreshed & st3 & -> & Ha3 & Hrenewed).
  rewrite bind_run. destruct refreshed.
  - destruct (post_occasion_bundles_run st3) as (st4 & Ha4 & Hpost').
    rewrite Ha3, Ha2, Ha1 in Hpost'.
    destruct (occasion_bundles_at E (S (availability_posts st))) as [r'|]
      eqn:Hr'; rewrite Hpost'; [|left; eauto].
    right. exists (S (availability_posts st)), r', st4.
    split; [done|]. split; [right; split; [done|by apply Hrenewed]|].
    split; [lia|done].
  - right. exists (availability_posts st), r, st3.
    split; [done|]. split; [by left|]. split; [lia|done].
Qed.

Lemma classify_failure_run (r : Response) (st : St) :
  ∃ st', availability_posts st' = availability_posts st ∧
    (classify_failure E r st = (Raise SessionExpiredError, st') ∨
     classify_failure E r st = (Raise (HTTPStatus (status_code r)), st')).
Proof.
  unfold classify_failure. rewrite bind_run.
  destruct (handle_session_error_run (text r) st) as (b & st' & -> & Ha & _).
  exists st'. split; [done|]. destruct b; auto.
Qed.

(** X8. When [get_available_dates] returns, what it returns was extracted
    from the last response it received: that response had transport status
    200, a body that decodes, and a status member equal to 200. *)
Theorem get_available_dates_returns (location_id : Z) (extended : bool)
    (st st' : St) (v : json) :
  get_available_dates E location_id extended st = (Ok v, st') →
  ∃ r response_data status,
    occasion_bundles_at E (pred (availability_posts st')) = Responded r ∧
    (availability_posts st < availability_posts st')%nat ∧
    status_code r = 200 ∧
    json_body r = Some response_data ∧
    getitem response_data "status" = Ok status ∧
    eq_int status 200 = true ∧
    extract_available response_data extended = Ok v.
Proof.
  destruct (last_response location_id extended st)
    as [(s & ->)|(n & r & st3 & Hr & Hn & Ha & ->)]; [discriminate|].
  destruct (status_code r =? 200) eqn:Hcode; [|discriminate].
  destruct (json_body r) as [response_data|] eqn:Hbody.
  - rewrite bind_run. unfold lift at 1.
    destruct (getitem response_data "status") as [status|] eqn:Hstatus;
      [|discriminate].
    destruct (eq_int status 200) eqn:H200.
    + unfold lift. intros [= Hv <-]. rewrite Ha. simpl.
      exists r, response_data, status.
      repeat split; try done; [destruct Hn as [->|[-> _]]; lia | lia].
    + destruct (classify_failure_run r st3) as (s & _ & [-> | ->]);
        discriminate.
  - destruct (classify_failure_run r st3) as (s & _ & [-> | ->]);
      discriminate.
Qed.

(** X9. The code carried by an [HTTPStatus] that leaves
    [get_available_dates] is the transport status of the last response
    received, never the status member of its body: for a body that reports
    a failure under transport status 200 the exception carries 200. *)
Theorem http_status_is_transport_status (location_id : Z) (extended : bool)
    (st st' : St) (code : Z) :
  get_available_dates E location_id extended st
    = (Raise (HTTPStatus code), st') →
  ∃ r, occasion_bundles_at E (pred (availability_posts st')) = Responded r ∧
       status_code r = code.
Proof.
  destruct (last_response location_id extended st)
    as [(s & ->)|(n & r & st3 & Hr & Hn & Ha & ->)]; [discriminate|].
  destruct (status_code r =? 200) eqn:Hcode.
  - destruct (json_body r) as [response_data|] eqn:Hbody.
    + rewrite bind_run. unfold lift at 1.
      destruct (getitem response_data "status") as [status|e] eqn:Hstatus.
      * destruct (eq_int status 200) eqn:H200.
        -- unfold lift.
           destruct (extract_available response_data extended) as [v|e]
             eqn:Hv; [discriminate|].
           intros [= -> _]. by apply extract_available_raises in Hv.
        -- destruct (classify_failure_run r st3) as (s & Hs & [-> | ->]);
             [discriminate|].
           intros [= <- <-]. rewrite Hs, Ha. simpl. eauto.
      * intros [= -> _]. by apply getitem_raises in Hstatus.
    + destruct (classify_failure_run r st3) as (s & Hs & [-> | ->]);
        [discriminate|].
      intros [= <- <-]. rewrite Hs, Ha. simpl. eauto.
  - unfold raise. intros [= <- <-]. rewrite Ha. simpl. eauto.
Qed.

(** X10. When the endpoint answers every request with the same transport
    status other than 200, [get_available_dates] raises [HTTPStatus] with
    that status, whether or not the session was renewed and the request
    sent again. *)
Theorem rejected_status_raises_http_status (location_id : Z)
    (extended : bool) (st : St) (code : Z) :
  code ≠ 200 →
  (∀ n, ∃ r, occasion_bundles_at E n = Responded r ∧ status_code r = code) →
  ∃ st', get_available_dates E location_id extended st
           = (Raise (HTTPStatus code), st').
Proof.
  intros Hcode Hall.
  destruct (last_response location_id extended st)
    as [(s & Hfail)|(n & r & st3 & Hr & Hn & Ha & ->)].
  - exfalso. revert Hfail. unfold get_available_dates. rewrite bind_run.
    destruct (ensure_fresh_session_run st) as (st1 & -> & Ha1 & _).
    rewrite bind_run.
    destruct (post_occasion_bundles_run st1) as (st2 & Ha2 & Hpost).
    destruct (Hall (availability_posts st1)) as (r & Hr & _).
    rewrite Hr in Hpost. rewrite Hpost. rewrite bind_run.
    destruct (handle_session_error_run (text r) st2)
      as (refreshed & st3 & -> & Ha3 & _).
    rewrite bind_run. destruct refreshed.
    + destruct (post_occasion_bundles_run st3) as (st4 & Ha4 & Hpost').
      destruct (Hall (availability_posts st3)) as (r' & Hr' & Hc').
      rewrite Hr' in Hpost'. rewrite Hpost'.
      destruct (status_code r' =? 200) eqn:H200; [lia|]. discriminate.
    + unfold mret, M_ret.
      destruct (Hall (availability_posts st1)) as (r2 & Hr2 & Hc2).
      assert (r2 = r) as -> by congruence.
      destruct (status_code r =? 200) eqn:H200; [lia|]. discriminate.
  - destruct (Hall n) as (r' & Hr' & Hc'). assert (r' = r) as -> by congruence.
    destruct (status_code r =? 200) eqn:H200; [lia|].
    subst code. eexists. reflexivity.
Qed.

(** X11. A transport failure of the first availability request leaves
    [get_available_dates] as [RequestException]: the request is not sent
    again and at most the one renewal of [_ensure_fresh_session] was
    made. *)
Theorem transport_failure_propagates (location_id : Z) (extended : bool)
    (st : St) :
  occasion_bundles_at E (availability_posts st) = ConnectionFailed →
  ∃ st', get_available_dates E location_id extended st
           = (Raise RequestException, st') ∧
         availability_posts st' = S (availability_posts st) ∧
         (renewal_posts st' ≤ renewal_posts st + 1)%nat.
Proof.
  intros Hfail. unfold get_available_dates. rewrite bind_run.
  destruct (ensure_fresh_session_run st) as (st1 & -> & Ha1 & Hr1).
  rewrite bind_run. unfold post_occasion_bundles.
  rewrite Ha1, Hfail. eexists. split; [reflexivity|]. simpl. lia.
Qed.

Lemma refresh_cookies_proactively_run (s : St) :
  ∃ b s', refresh_cookies_proactively E s = (Ok b, s') ∧
          renewal_posts s' = S (renewal_posts s) ∧
          (b = true →
           ∃ r, getCookie_at E (renewal_posts s) = Responded r ∧
                status_code r = 200 ∧ cookies_of_headers (headers r) ≠ ∅).
Proof.
  unfold refresh_cookies_proactively. unfold_monad. simpl.
  destruct (getCookie_at E (renewal_posts s)) as [r|];
    [|by eexists _, _].
  destruct (status_code r =? 200) eqn:Hs; [|by eexists _, _].
  case_bool_decide; [by eexists _, _|].
  eexists _, _. split; [reflexivity|]. split; [done|]. intros _.
  exists r. split; [done|]. split; [lia|done].
Qed.

(** The renewal [_handle_session_error] reports is the answer to one of the
    at most two renewal requests it sends. *)
Lemma handle_session_error_renewed (t : string) (st st' : St) :
  _handle_session_error E t st = (Ok true, st') →
  ∃ n r, (renewal_posts st ≤ n ≤ renewal_posts st + 1)%nat ∧
         getCookie_at E n = Responded r ∧
         status_code r = 200 ∧ cookies_of_headers (headers r) ≠ ∅.
Proof.
  pose proof (uses_should_refresh_cookies E st) as (_ & Hr1 & _).
  revert Hr1.
  unfold _handle_session_error, is_session_expired. unfold_monad.
  destruct (should_refresh_cookies_returns E st) as (due & st1 & ->).
  simpl. intros Hr1.
  destruct due.
  - destruct (refresh_cookies_proactively_run st1) as (b1 & st2 & -> & H2 & _).
    destruct b1; simpl; [discriminate|].
    destruct (refresh_cookies_proactively_run st2)
      as (b2 & st3 & -> & H3 & Hok).
    intros [= -> ->]. destruct (Hok eq_refl) as (r & Hr & Hs & Hc).
    exists (renewal_posts st2), r. split; [lia|done].
  - destruct (String.eqb t EmptyString); simpl; [discriminate|].
    destruct (expired_pattern_found t); simpl; [|discriminate].
    destruct (refresh_cookies_proactively_run st1)
      as (b2 & st3 & -> & H3 & Hok).
    intros [= -> ->]. destruct (Hok eq_refl) as (r & Hr & Hs & Hc).
    exists (renewal_posts st1), r. split; [lia|done].
Qed.

(** X12. [get_available_dates] sends the availability request a second time
    only after a renewal succeeded during the call: one of the first three
    renewal requests of the call was answered with status 200 and at least
    one cookie. *)
Theorem retry_only_after_renewal (location_id : Z) (extended : bool)
    (st : St) :
  availability_posts (snd (get_available_dates E location_id extended st))
    = S (S (availability_posts st)) →
  ∃ n r, (renewal_posts st ≤ n ≤ renewal_posts st + 2)%nat ∧
         getCookie_at E n = Responded r ∧
         status_code r = 200 ∧ cookies_of_headers (headers r) ≠ ∅.
Proof.
  unfold get_available_dates. rewrite bind_run.
  destruct (ensure_fresh_session_run st) as (st1 & -> & Ha1 & Hr1).
  rewrite bind_run.
  destruct (post_occasion_bundles_run st1) as (st2 & Ha2 & Hpost).
  assert (renewal_posts st2 = renewal_posts st1) as Hr2.
  { pose proof (uses_post_occasion_bundles E st1) as (_ & Hp & _).
    destruct (occasion_bundles_at E (availability_posts st1));
      rewrite Hpost in Hp; simpl in Hp; lia. }
  destruct (occasion_bundles_at E (availability_posts st1)) as [r|];
    rewrite Hpost; [|simpl; lia].
  rewrite bind_run.
  destruct (handle_session_error_run (text r) st2)
    as (refreshed & st3 & Hh & Ha3 & _).
  rewrite Hh.
  destruct refreshed.
  { intros _. destruct (handle_session_error_renewed _ _ _ Hh)
      as (n & r' & Hn & H). exists n, r'. split; [lia|done]. }
  rewrite bind_run. unfold mret at 1, M_ret at 1.
  match goal with
  | |- context [snd (?m st3)] =>
      assert (availability_posts (snd (m st3)) = availability_posts st3)
        as Hsame
  end.
  { destruct (status_code r =? 200); [|done].
    destruct (json_body r) as [response_data|].
    - rewrite bind_run. unfold lift at 1.
      destruct (getitem response_data "status") as [status|]; [|done].
      destruct (eq_int status 200); [done|].
      by destruct (classify_failure_run r st3) as (s & Hs & [-> | ->]).
    - by destruct (classify_failure_run r st3) as (s & Hs & [-> | ->]). }
  rewrite Hsame. lia.
Qed.
End CallFacts.

(** ** Stripped rides *)

Lemma comprehension_ok {A B : Type} (f : A → Res B) (l : list A)
    (out : list B) :
  comprehension f l = Ok out → Forall2 (fun x y => f x = Ok y) l out.
Proof.
  revert out. induction l as [|x l IH]; intros out; simpl.
  - intros [= <-]. constructor.
  - destruct (f x) as [y|] eqn:Hx; [|discriminate].
    destruct (comprehension f l) as [ys|]; [|discriminate].
    intros [= <-]. constructor; [done|]. by apply IH.
Qed.

Lemma comprehension_of_Forall2 {A B : Type} (f : A → Res B) (l : list A)
    (out : list B) :
  Forall2 (fun x y => f x = Ok y) l out → comprehension f l = Ok out.
Proof.
  induction 1 as [|x y l out Hx _ IH]; simpl; [done|]. by rewrite Hx, IH.
Qed.

Lemma strip_ride_ok (ride item : json) :
  strip_ride ride = Ok item →
  ∃ t l c d n,
    item = JObj [("time", t); ("location", l); ("cost", c); ("date", d);
                 ("name", n)] ∧
    first_occasion_field ride "time" = Ok t ∧
    first_occasion_field ride "locationName" = Ok l ∧
    first_occasion_field ride "cost" = Ok c ∧
    first_occasion_field ride "date" = Ok d ∧
    first_occasion_field ride "name" = Ok n.
Proof.
  unfold strip_ride. unfold mbind, mret, Res_bind, Res_ret.
  destruct (first_occasion_field ride "time") as [t|]; [|discriminate].
  destruct (first_occasion_field ride "locationName") as [l|]; [|discriminate].
  destruct (first_occasion_field ride "cost") as [c|]; [|discriminate].
  destruct (first_occasion_field ride "date") as [d|]; [|discriminate].
  destruct (first_occasion_field ride "name") as [n|]; [|discriminate].
  intros [= <-]. by exists t, l, c, d, n.
Qed.

(** X13. Whenever [strip_useless_info] returns records for some rides,
    [dates_found] returns for the same rides, and its dates are the [date]
    members of those records, in order. *)
Theorem stripped_rides_carry_the_dates (rides : json) (items : list json) :
  strip_useless_info rides = Ok items →
  ∃ dates,
    dates_found rides = Ok dates ∧
    Forall2 (fun item d => getitem item "date" = Ok d) items dates.
Proof.
  unfold strip_useless_info, dates_found. unfold mbind, Res_bind.
  destruct (iterate rides) as [l|]; [|discriminate].
  intros H. apply comprehension_ok in H.
  assert (∃ dates,
            Forall2 (fun ride d => first_occasion_field ride "date" = Ok d)
                    l dates ∧
            Forall2 (fun item d => getitem item "date" = Ok d) items dates)
    as (dates & H1 & H2).
  { induction H as [|ride item l items Hri _ (dates & IH1 & IH2)].
    - exists []. split; constructor.
    - apply strip_ride_ok in Hri as (t & lo & c & d & n & -> & _ & _ & _ & Hd & _).
      exists (d :: dates). split; constructor; done. }
  exists dates. split; [|done]. by apply comprehension_of_Forall2.
Qed.

Section StrippedRides.

Context (E : Env).

Lemma insert_ride_stripped (wanted : string) (d : Database)
    (ride item : json) (st : St) (e : Exn) :
  strip_ride ride = Ok item →
  fst (insert_ride E wanted d item st) = Raise e → e = SqliteError.
Proof.
  intros Hs. apply strip_ride_ok in Hs as (t & l & c & da & n & -> & _).
  unfold insert_ride, bind_text, current_timestamp. unfold_monad.
  cbn [getitem assoc String.eqb Ascii.eqb Bool.eqb].
  destruct (sqlite_text E n); [|by intros [= <-]].
  destruct (sqlite_text E da); [|by intros [= <-]].
  destruct (sqlite_text E t); [|by intros [= <-]].
  destruct (sqlite_text E l); [|by intros [= <-]].
  destruct (sqlite_text E c); [|by intros [= <-]].
  discriminate.
Qed.

(** X14. The records [strip_useless_info] returns have the five keys
    [store_rides] reads: storing them never raises [KeyError] or
    [TypeError], it can only fail in the binding of a value. *)
Theorem stripped_rides_have_the_stored_keys (rides : json)
    (items : list json) (wanted : string) (st : St) (e : Exn) :
  strip_useless_info rides = Ok items →
  fst (store_rides E items wanted st) = Raise e →
  e = SqliteError.
Proof.
  unfold strip_useless_info. unfold mbind at 1, Res_bind at 1.
  destruct (iterate rides) as [l|]; [|discriminate].
  intros H. apply comprehension_ok in H.
  unfold store_rides. rewrite bind_run. unfold get_database at 1.
  rewrite bind_run.
  match goal with
  | |- context [insert_rides E wanted ?d items st] => generalize d
  end.
  generalize st. clear st.
  induction H as [|ride item l items Hri _ IH]; intros st d.
  - simpl. discriminate.
  - cbn [insert_rides]. rewrite bind_run.
    pose proof (insert_ride_stripped wanted d ride item st) as Hone.
    destruct (insert_ride E wanted d item st) as [[d1|e1] st1].
    + apply IH.
    + intros [= <-]. by apply (Hone e1).
Qed.
End StrippedRides.

(** ** Polling and reporting *)

Section PollFacts.

Context (E : Env).

Lemma uses_fetch_rides (location_id : Z) : uses (fetch_rides E location_id) 2 5.
Proof.
  unfold fetch_rides.
  apply (uses_bind _ _ 2 5 0 0); [apply uses_get_available_dates|].
  intros; apply uses_lift.
Qed.

Lemma uses_attempt {A : Type} (m : M A) (a r : nat) :
  uses m a r → uses (attempt m) a r.
Proof.
  intros H st. specialize (H st). unfold attempt.
  by destruct (m st) as [res st'].
Qed.

Lemma uses_poll_location (n : nat) (location_id : Z) (acc : list json) :
  uses (poll_location E n location_id acc) (2 * n + 2) (5 * n + 6).
Proof.
  induction n as [|n IH]; cbn [poll_location].
  - apply (uses_weaken _ 0 0); [apply uses_ret|lia|lia].
  - apply (uses_weaken _ (2 + (2 * n + 2)) (5 + (5 * n + 6))); [|lia|lia].
    apply uses_bind; [apply uses_attempt, uses_fetch_rides|].
    intros [rides|e].
    + apply (uses_weaken _ 0 0); [apply uses_ret|lia|lia].
    + assert (uses (raise e : M (list json)) (2 * n + 2) (5 * n + 6)) as Hraise.
      { apply (uses_weaken _ 0 0); [apply uses_raise|lia|lia]. }
      destruct e; try exact Hraise; try exact IH.
      apply (uses_weaken _ (0 + (2 + 0)) (1 + (5 + 0))); [|lia|lia].
      apply uses_bind; [apply uses_refresh_cookies_proactively|].
      intros [|]; [|apply (uses_weaken _ 0 0); [apply uses_ret|lia|lia]].
      apply uses_bind; [apply uses_attempt, uses_fetch_rides|].
      intros [rides|e]; [apply uses_ret|].
      destruct e; first [apply uses_raise | apply uses_ret].
Qed.

(** X15. The polling of one cycle is bounded: for every location at most
    [2 * MAX_ATTEMPTS + 2] availability requests and [5 * MAX_ATTEMPTS + 6]
    renewal requests are sent, and the table is not touched while
    polling. *)
Theorem polling_is_bounded (location_ids : list Z) (acc : list json) :
  uses (poll_locations E location_ids acc)
       (List.length location_ids * (2 * MAX_ATTEMPTS E + 2))
       (List.length location_ids * (5 * MAX_ATTEMPTS E + 6)).
Proof.
  revert acc. induction location_ids as [|location_id rest IH]; intros acc;
    cbn [poll_locations List.length].
  - apply uses_ret.
  - apply (uses_weaken _
             ((2 * MAX_ATTEMPTS E + 2)
              + List.length rest * (2 * MAX_ATTEMPTS E + 2))
             ((5 * MAX_ATTEMPTS E + 6)
              + List.length rest * (5 * MAX_ATTEMPTS E + 6))); [|lia|lia].
    apply uses_bind; [apply uses_poll_location|]. intros l. apply IH.
Qed.

(** X16. The report of a cycle accounts for the whole change: taking the
    removed rides out of the previous set and adding the new ones gives the
    current set; a new ride was not in the previous set, a removed ride
    was and is not in the current one; when the set did not change both
    reports are empty. *)
Theorem cycle_report_rebuilds_current (wanted : string)
    (location_ids : list Z) (last : gset (list (string * string)))
    (out : Cycle) (st st' : St) :
  monitor_cycle E wanted location_ids last st = (Ok out, st') →
  (last ∖ removed_rides out) ∪ new_rides out = current_available_rides out ∧
  new_rides out ## last ∧
  removed_rides out ⊆ last ∧
  removed_rides out ## current_available_rides out ∧
  (current_available_rides out = last →
   new_rides out = ∅ ∧ removed_rides out = ∅).
Proof.
  unfold monitor_cycle. rewrite bind_run.
  destruct (poll_locations E location_ids [] st) as [[batch|e] st1];
    [|discriminate].
  intros Hr. apply reconcile_ok in Hr as (_ & _ & _ & _ & Hnew & Hrem).
  rewrite Hnew, Hrem.
  set (current := current_available_rides out).
  split; [|split; [|split; [|split]]].
  - apply set_eq. intros x.
    rewrite elem_of_union, !elem_of_difference.
    destruct (decide (x ∈ last)), (decide (x ∈ current)); tauto.
  - apply disjoint_difference_l1. done.
  - apply subseteq_difference_l. done.
  - apply disjoint_difference_l1. done.
  - intros ->. split; apply set_eq; intros x;
      rewrite elem_of_difference, elem_of_empty; tauto.
Qed.
End PollFacts.

(** ** The cookies the manager holds *)

Lemma validate_cookies_spec (cookies : gmap string string) :
  validate_cookies cookies = true ↔
  ∀ k, k ∈ required_cookies → is_Some (cookies !! k).
Proof.
  unfold validate_cookies. rewrite forallb_forall. split.
  - intros H k Hk. apply list_elem_of_In in Hk. specialize (H k Hk).
    by destruct (cookies !! k).
  - intros H k Hk. apply list_elem_of_In in Hk. destruct (H k Hk) as [v ->].
    done.
Qed.

Section ManagerFacts.
Context (E : Env).

Lemma keeps_names_ret {A : Type} (x : A) : keeps_names (mret x).
Proof. by intros st k. Qed.

Lemma keeps_names_raise {A : Type} (e : Exn) : keeps_names (raise e : M A).
Proof. by intros st k. Qed.

Lemma keeps_names_lift {A : Type} (r : Res A) : keeps_names (lift r).
Proof. by intros st k. Qed.

Lemma keeps_names_bind {A B : Type} (m : M A) (f : A → M B) :
  keeps_names m → (∀ x, keeps_names (f x)) → keeps_names (m ≫= f).
Proof.
  intros Hm Hf st k Hk. specialize (Hm st k Hk). rewrite bind_run.
  destruct (m st) as [[x|e] st1]; simpl in *; [|done]. by apply Hf.
Qed.

Lemma keeps_names_attempt {A : Type} (m : M A) :
  keeps_names m → keeps_names (attempt m).
Proof.
  intros Hm st k Hk. specialize (Hm st k Hk). unfold attempt.
  by destruct (m st).
Qed.

Lemma keeps_names_datetime_now : keeps_names (datetime_now E).
Proof. by intros st k. Qed.

Lemma keeps_names_merge (new_cookies : gmap string string) :
  keeps_names
    (m ← get_manager;
     now ← datetime_now E;
     set_manager {| current_cookies := new_cookies ∪ current_cookies m;
                    last_refresh_time := Some now |};;
     mret true).
Proof.
  intros st k [v Hk]. unfold_monad. simpl.
  destruct (new_cookies !! k) as [w|] eqn:Hn.
  - exists w. by apply lookup_union_Some_l.
  - exists v. by rewrite lookup_union_r.
Qed.

Lemma keeps_names_should_refresh_cookies :
  keeps_names (should_refresh_cookies E).
Proof.
  intros st k Hk.
  unfold should_refresh_cookies, get_earliest_cookie_expiration. unfold_monad.
  simpl.
  destruct (last_refresh_time (session_manager st)); simpl;
    [destruct (refresh_interval <? _); simpl; [done|]|].
  all: destruct (current_cookies (session_manager st) !! "LoginValid");
    simpl; [|done].
  all: destruct (String.eqb _ _); simpl; [done|].
  all: by destruct (strptime E _).
Qed.

Lemma keeps_names_refresh_cookies_proactively :
  keeps_names (refresh_cookies_proactively E).
Proof.
  unfold refresh_cookies_proactively.
  apply keeps_names_bind; [by intros st k|].
  intros [r|]; [|apply keeps_names_ret].
  destruct (status_code r =? 200); [|apply keeps_names_ret].
  case_bool_decide; [apply keeps_names_ret|]. apply keeps_names_merge.
Qed.

Lemma keeps_names_update_cookies (new_cookies : gmap string string) :
  keeps_names (update_cookies E new_cookies).
Proof.
  unfold update_cookies.
  case_bool_decide; [apply keeps_names_ret|]. apply keeps_names_merge.
Qed.

Lemma keeps_names_handle_session_error (t : string) :
  keeps_names (_handle_session_error E t).
Proof.
  unfold _handle_session_error, is_session_expired.
  apply keeps_names_bind.
  - apply keeps_names_bind; [apply keeps_names_should_refresh_cookies|].
    intros [|].
    + apply keeps_names_bind;
        [apply keeps_names_refresh_cookies_proactively|].
      intros; apply keeps_names_ret.
    + destruct (String.eqb _ _); apply keeps_names_ret.
  - intros [|]; [apply keeps_names_refresh_cookies_proactively|].
    apply keeps_names_ret.
Qed.

Lemma keeps_names_get_available_dates (location_id : Z) (extended : bool) :
  keeps_names (get_available_dates E location_id extended).
Proof.
  unfold get_available_dates, _ensure_fresh_session, ensure_fresh_cookies,
    classify_failure.
  apply keeps_names_bind.
  { apply keeps_names_bind; [|intros; apply keeps_names_ret].
    apply keeps_names_bind; [apply keeps_names_should_refresh_cookies|].
    intros [|]; [apply keeps_names_refresh_cookies_proactively|].
    apply keeps_names_ret. }
  intros _. apply keeps_names_bind.
  { intros st k Hk. unfold post_occasion_bundles.
    by destruct (occasion_bundles_at E (availability_posts st)). }
  intros r. apply keeps_names_bind; [apply keeps_names_handle_session_error|].
  intros refreshed. apply keeps_names_bind.
  { destruct refreshed; [|apply keeps_names_ret].
    intros st k Hk. unfold post_occasion_bundles.
    by destruct (occasion_bundles_at E (availability_posts st)). }
  intros r'. destruct (status_code r' =? 200); [|apply keeps_names_raise].
  assert (keeps_names
            (refreshed0 ← _handle_session_error E (text r');
             if (refreshed0 : bool) then raise SessionExpiredError
             else raise (HTTPStatus (status_code r')) : M json)) as Hc.
  { apply keeps_names_bind; [apply keeps_names_handle_session_error|].
    intros [|]; apply keeps_names_raise. }
  destruct (json_body r') as [data|]; [|exact Hc].
  apply keeps_names_bind; [apply keeps_names_lift|]. intros status.
  destruct (eq_int status 200); [apply keeps_names_lift|exact Hc].
Qed.

Lemma keeps_names_fetch_rides (location_id : Z) :
  keeps_names (fetch_rides E location_id).
Proof.
  unfold fetch_rides.
  apply keeps_names_bind; [apply keeps_names_get_available_dates|].
  intros; apply keeps_names_lift.
Qed.

Lemma keeps_names_poll_location (n : nat) (location_id : Z)
    (acc : list json) :
  keeps_names (poll_location E n location_id acc).
Proof.
  induction n as [|n IH]; cbn [poll_location]; [apply keeps_names_ret|].
  apply keeps_names_bind; [apply keeps_names_attempt, keeps_names_fetch_rides|].
  intros [rides|e]; [apply keeps_names_ret|].
  destruct e; try apply keeps_names_raise; try exact IH.
  unfold api_refresh_cookies_proactively.
  apply keeps_names_bind; [apply keeps_names_refresh_cookies_proactively|].
  intros [|]; [|apply keeps_names_ret].
  apply keeps_names_bind; [apply keeps_names_attempt, keeps_names_fetch_rides|].
  intros [rides|e]; [apply keeps_names_ret|].
  destruct e; first [apply keeps_names_raise | apply keeps_names_ret].
Qed.

Lemma keeps_names_poll_locations (location_ids : list Z) :
  ∀ acc, keeps_names (poll_locations E location_ids acc).
Proof.
  induction location_ids as [|location_id rest IH]; intros acc;
    cbn [poll_locations]; [apply keeps_names_ret|].
  apply keeps_names_bind; [apply keeps_names_poll_location|]. apply IH.
Qed.

(** X17. No call removes a stored cookie: once [validate_cookies] accepts the
    stored cookies it accepts them after [get_available_dates], after the
    polling of any list of locations and after [update_cookies] with any
    dictionary, whatever the servers answer. *)
Theorem valid_cookies_stay_valid (location_id : Z) (extended : bool)
    (location_ids : list Z) (new_cookies : gmap string string) (st : St) :
  validate_cookies (current_cookies (session_manager st)) = true →
  validate_cookies
    (current_cookies
       (session_manager (snd (get_available_dates E location_id extended st))))
    = true ∧
  validate_cookies
    (current_cookies
       (session_manager (snd (poll_locations E location_ids [] st))))
    = true ∧
  validate_cookies
    (current_cookies
       (session_manager (snd (update_cookies E new_cookies st))))
    = true.
Proof.
  rewrite !validate_cookies_spec. intros Hvalid.
  split; [|split]; intros k Hk.
  - by apply keeps_names_get_available_dates, Hvalid.
  - by apply keeps_names_poll_locations, Hvalid.
  - by apply keeps_names_update_cookies, Hvalid.
Qed.

Lemma refresh_cookies_proactively_stamp (st st' : St) :
  refresh_cookies_proactively E st = (Ok true, st') →
  last_refresh_time (session_manager st')
    = Some (datetime_now_at E (clock_reads st)) ∧
  clock_reads st' = S (clock_reads st).
Proof.
  unfold refresh_cookies_proactively. unfold_monad. simpl.
  destruct (getCookie_at E (renewal_posts st)) as [r|]; [|discriminate].
  destruct (status_code r =? 200) eqn:Hs; [|discriminate].
  case_bool_decide; [discriminate|].
  by intros [= <-].
Qed.

(** X18. When [refresh_cookies_proactively] returns [True], the renewal
    endpoint answered with status 200 and at least one cookie; the stored
    cookies are those of the answer merged over the old ones (a cookie of
    the answer wins, every other cookie is kept), and the time of the
    renewal is the reading of the clock taken after the answer. *)
Theorem refresh_success_merges (st st' : St) :
  refresh_cookies_proactively E st = (Ok true, st') →
  ∃ r,
    getCookie_at E (renewal_posts st) = Responded r ∧
    status_code r = 200 ∧
    cookies_of_headers (headers r) ≠ ∅ ∧
    current_cookies (session_manager st')
      = cookies_of_headers (headers r) ∪ current_cookies (session_manager st) ∧
    (∀ k v, cookies_of_headers (headers r) !! k = Some v →
            current_cookies (session_manager st') !! k = Some v) ∧
    (∀ k v, current_cookies (session_manager st) !! k = Some v →
            cookies_of_headers (headers r) !! k = None →
            current_cookies (session_manager st') !! k = Some v) ∧
    last_refresh_time (session_manager st')
      = Some (datetime_now_at E (clock_reads st)) ∧
    clock_reads st' = S (clock_reads st).
Proof.
  unfold refresh_cookies_proactively. unfold_monad. simpl.
  destruct (getCookie_at E (renewal_posts st)) as [r|]; [|discriminate].
  destruct (status_code r =? 200) eqn:Hs; [|discriminate].
  case_bool_decide; [discriminate|].
  intros [= <-]. simpl. exists r. split; [done|]. split; [lia|].
  split; [done|]. split; [done|]. split; [|split; [|done]].
  - intros k v Hk. by apply lookup_union_Some_l.
  - intros k v Hk Hn. by rewrite lookup_union_r.
Qed.

(** X19. Right after a renewal that succeeded no renewal is due, as long as
    the clock has not advanced by more than the refresh interval and the
    stored [LoginValid], when it can be read, is not within the expiry
    warning. *)
Theorem not_due_after_renewal (st st' : St) :
  refresh_cookies_proactively E st = (Ok true, st') →
  datetime_now_at E (S (clock_reads st)) - datetime_now_at E (clock_reads st)
    ≤ refresh_interval →
  (∀ expiration,
     fst (get_earliest_cookie_expiration E st') = Ok (Some expiration) →
     expiry_warning ≤ expiration - datetime_now_at E (S (S (clock_reads st)))) →
  fst (should_refresh_cookies E st') = Ok false.
Proof.
  intros Hr Hclock Hexpiry.
  destruct (refresh_cookies_proactively_stamp st st' Hr) as (Hlast & Hreads).
  revert Hexpiry.
  unfold should_refresh_cookies, get_earliest_cookie_expiration. unfold_monad.
  simpl. rewrite Hlast, Hreads. simpl.
  destruct (refresh_interval <? _) eqn:Hi; [lia|]. simpl.
  destruct (current_cookies (session_manager st') !! "LoginValid") as [lv|];
    simpl; [|done].
  destruct (String.eqb lv EmptyString); simpl; [done|].
  destruct (strptime E lv) as [e|]; simpl; [|done].
  intros H. specialize (H e eq_refl).
  destruct (e - _ <? expiry_warning) eqn:Hw; [lia|done].
Qed.

(** X20. [ensure_fresh_cookies] always returns and sends at most one renewal
    request. Without a request it returns [True] and leaves the manager as
    it was; it returns [False] only after a request was sent, and then the
    manager is as it was. *)
Theorem ensure_fresh_cookies_outcome (st : St) :
  ∃ b st',
    ensure_fresh_cookies E st = (Ok b, st') ∧
    (renewal_posts st' = renewal_posts st ∨
     renewal_posts st' = S (renewal_posts st)) ∧
    (renewal_posts st' = renewal_posts st →
     b = true ∧ session_manager st' = session_manager st) ∧
    (b = false →
     renewal_posts st' = S (renewal_posts st) ∧
     session_manager st' = session_manager st).
Proof.
  unfold ensure_fresh_cookies. rewrite bind_run.
  destruct (should_refresh_cookies_returns E st) as (due & st1 & Hdue).
  pose proof (uses_should_refresh_cookies E st) as (_ & Hr1 & _).
  assert (session_manager st1 = session_manager st) as Hm1.
  { revert Hdue. unfold should_refresh_cookies, get_earliest_cookie_expiration.
    unfold_monad. simpl.
    destruct (last_refresh_time (session_manager st)); simpl;
      [destruct (refresh_interval <? _); simpl; [by intros [= _ <-]|]|].
    all: destruct (current_cookies (session_manager st) !! "LoginValid");
      simpl; [|by intros [= _ <-]].
    all: destruct (String.eqb _ _); simpl; [by intros [= _ <-]|].
    all: destruct (strptime E _); simpl; by intros [= _ <-]. }
  rewrite Hdue in Hr1 |- *. simpl in Hr1.
  assert (renewal_posts st1 = renewal_posts st) as Hp1 by lia.
  destruct due.
  - assert (renewal_posts (snd (refresh_cookies_proactively E st1))
            = S (renewal_posts st1)) as Hone.
    { unfold refresh_cookies_proactively. unfold_monad. simpl.
      destruct (getCookie_at E (renewal_posts st1)) as [r|]; [|done].
      destruct (status_code r =? 200); [|done]. by case_bool_decide. }
    destruct (refresh_cookies_proactively_cases E st1)
      as [[Hf Hm]|[Ht _]];
      destruct (refresh_cookies_proactively E st1) as [res st2];
      simpl in *; subst res.
    + exists false, st2. split; [reflexivity|].
      split; [right; lia|]. split; [lia|]. intros _. split; [lia|congruence].
    + exists true, st2. split; [reflexivity|].
      split; [right; lia|]. split; [lia|]. discriminate.
  - exists true, st1. split; [done|]. split; [by left|].
    split; [done|discriminate].
Qed.

(** X21. When a renewal is due, [is_session_expired] does not read the
    response text: it attempts the renewal and reports the session as
    expired exactly when the renewal fails. *)
Theorem is_session_expired_due_ignores_text (t t' : string) (st : St) :
  fst (should_refresh_cookies E st) = Ok true →
  is_session_expired E t st = is_session_expired E t' st ∧
  ∃ renewed st',
    snd (should_refresh_cookies E st) = st' ∧
    fst (refresh_cookies_proactively E st') = Ok renewed ∧
    fst (is_session_expired E t st) = Ok (negb renewed).
Proof.
  intros Hdue. unfold is_session_expired. rewrite !bind_run.
  destruct (should_refresh_cookies E st) as [due st1]. simpl in Hdue.
  subst due. split; [done|].
  destruct (refresh_cookies_proactively_returns E st1) as (b & st2 & Hr).
  exists b, st1. split; [done|]. rewrite bind_run, Hr. done.
Qed.
End ManagerFacts.

(** ** Texts without a cookie header *)

(** *** Text lemmas *)

Lemma strip_prefix_ci_lower (p s rest : string) :
  PyRe.strip_prefix_ci p s = Some rest →
  PyStr.startswith (PyStr.lower p) (PyStr.lower s) = true.
Proof.
  unfold PyStr.startswith. revert s.
  induction p as [|a p IH]; intros [|b s];
    cbn [PyRe.strip_prefix_ci PyStr.lower PyStr.strip_prefix]; try done.
  destruct (Ascii.eqb (PyStr.lower_char a) (PyStr.lower_char b)); [|done].
  apply IH.
Qed.

Lemma contains_startswith (needle hay : string) :
  PyStr.startswith needle hay = true → PyStr.contains needle hay = true.
Proof. destruct hay; simpl; [done|]. by intros ->. Qed.

Lemma contains_tail (needle : string) (c : ascii) (hay : string) :
  PyStr.contains needle hay = true →
  PyStr.contains needle (String c hay) = true.
Proof. simpl. intros ->. by rewrite orb_true_r. Qed.

Lemma search_contains (name s : string) (found : string * string) :
  PyRe.search name s = Some found →
  PyStr.contains (PyStr.lower name) (PyStr.lower s) = true.
Proof.
  induction s as [|c s IH]; simpl.
  - unfold PyRe.match_here.
    destruct (PyRe.strip_prefix_ci name EmptyString) as [rest|] eqn:Hp;
      [|by destruct name].
    intros _. by apply strip_prefix_ci_lower in Hp.
  - unfold PyRe.match_here at 1.
    destruct (PyRe.strip_prefix_ci name (String c s)) as [rest|] eqn:Hp.
    + intros _. apply strip_prefix_ci_lower in Hp. simpl in Hp.
      by rewrite Hp.
    + intros H. apply IH in H. rewrite H. by rewrite orb_true_r.
Qed.

Lemma findall_contains (name s : string) (skip : nat) :
  PyStr.contains (PyStr.lower name) (PyStr.lower s) = false →
  PyRe.findall name skip s = [].
Proof.
  revert skip. induction s as [|c s IH]; intros skip; simpl; [done|].
  intros H. apply orb_false_iff in H as [Hhere Hrest].
  destruct skip as [|k]; [|by apply IH].
  unfold PyRe.match_here.
  destruct (PyRe.strip_prefix_ci name (String c s)) as [rest|] eqn:Hp.
  - apply strip_prefix_ci_lower in Hp. simpl in Hp. congruence.
  - by apply IH.
Qed.

Lemma startswith_app_contains (a b : string) :
  ∀ t, PyStr.startswith (a ++ b) t = true → PyStr.contains b t = true.
Proof.
  unfold PyStr.startswith.
  induction a as [|c a IH]; intros t; simpl.
  - intros H. apply contains_startswith. exact H.
  - destruct t as [|d t]; [done|].
    destruct (Ascii.eqb c d); [|done].
    intros H. apply contains_tail. by apply IH.
Qed.

Lemma contains_app_r (a b t : string) :
  PyStr.contains (a ++ b) t = true → PyStr.contains b t = true.
Proof.
  induction t as [|c t IH].
  - simpl. apply startswith_app_contains.
  - cbn [PyStr.contains]. intros H. apply orb_true_iff in H as [H|H].
    + by apply startswith_app_contains in H.
    + apply contains_tail. by apply IH.
Qed.

Section NoHeader.
Context (E : Env).

(** X22. An ASCII text in which the letters of the header name followed by
    a colon do not occur, in any case, yields no cookie, neither as a
    request nor as a response; updating from it returns [False] and
    changes nothing. (Outside ASCII Python folds more characters to the
    letters of the name than the model has.) *)
Theorem no_cookie_header_no_cookies (text : string) :
  PyStr.isascii text = true →
  PyStr.contains "cookie:" (PyStr.lower text) = false →
  extract_cookies_from_request text = ∅ ∧
  extract_cookies_from_response text = ∅ ∧
  ∀ st, update_cookies_from_request E text st = (Ok false, st) ∧
        update_cookies_from_response E text st = (Ok false, st).
Proof.
  intros _ Hnone.
  assert (extract_cookies_from_request text = ∅) as Hreq.
  { unfold extract_cookies_from_request.
    destruct (PyRe.search "Cookie:" text) as [[g rest]|] eqn:Hs; [|done].
    apply search_contains in Hs.
    change (PyStr.lower "Cookie:") with "cookie:" in Hs. congruence. }
  assert (extract_cookies_from_response text = ∅) as Hresp.
  { unfold extract_cookies_from_response.
    rewrite findall_contains; [done|].
    destruct (PyStr.contains (PyStr.lower "Set-Cookie:") (PyStr.lower text))
      eqn:Hc; [|done].
    change (PyStr.lower "Set-Cookie:") with ("set-" ++ "cookie:")%string in Hc.
    apply contains_app_r in Hc. congruence. }
  split; [done|]. split; [done|]. intros st.
  unfold update_cookies_from_request, update_cookies_from_response.
  rewrite Hreq, Hresp. rewrite bool_decide_eq_true_2; done.
Qed.
End NoHeader.

(** ** The cookie line of a request *)

Lemma append_cons (c : ascii) (a b : string) :
  (String c a ++ b)%string = String c (a ++ b)%string.
Proof. reflexivity. Qed.

Lemma append_nil (b : string) : (EmptyString ++ b)%string = b.
Proof. reflexivity. Qed.

Lemma contains_char_nil (ch : ascii) :
  PyStr.contains (String ch EmptyString) EmptyString = false.
Proof. reflexivity. Qed.

Lemma contains_char_cons (ch c : ascii) (s : string) :
  PyStr.contains (String ch EmptyString) (String c s)
  = (Ascii.eqb ch c || PyStr.contains (String ch EmptyString) s)%bool.
Proof.
  cbn [PyStr.contains]. f_equal. unfold PyStr.startswith.
  cbn [PyStr.strip_prefix]. by destruct (Ascii.eqb ch c).
Qed.

Lemma contains_char_app (ch : ascii) (a b : string) :
  PyStr.contains (String ch EmptyString) (a ++ b)
  = (PyStr.contains (String ch EmptyString) a
     || PyStr.contains (String ch EmptyString) b)%bool.
Proof.
  induction a as [|c a IH]; [done|].
  rewrite append_cons, !contains_char_cons, IH.
  by rewrite orb_assoc.
Qed.

Lemma rstrip_cons (c : ascii) (s : string) :
  PyStr.rstrip s ≠ EmptyString ∨ PyStr.is_space c = false →
  PyStr.rstrip (String c s) = String c (PyStr.rstrip s).
Proof.
  cbn [PyStr.rstrip]. intros [H|H].
  - by destruct (PyStr.rstrip s).
  - rewrite H. by destruct (PyStr.rstrip s).
Qed.

Lemma rstrip_app (a b : string) :
  PyStr.rstrip b ≠ EmptyString →
  PyStr.rstrip (a ++ b) = (a ++ PyStr.rstrip b)%string.
Proof.
  intros Hb. induction a as [|c a IH]; [done|].
  rewrite append_cons. rewrite rstrip_cons; [by rewrite IH|].
  left. rewrite IH. by destruct a.
Qed.

Lemma rstrip_fixed_cons (c : ascii) (s : string) :
  PyStr.rstrip (String c s) = String c s →
  match s with
  | EmptyString => PyStr.is_space c = false
  | String _ _ => PyStr.rstrip s = s
  end.
Proof.
  cbn [PyStr.rstrip]. destruct s as [|d s].
  - cbn [PyStr.rstrip]. by destruct (PyStr.is_space c).
  - destruct (PyStr.rstrip (String d s)) as [|e r].
    + by destruct (PyStr.is_space c).
    + by intros [= -> ->].
Qed.

Lemma lstrip_length (s : string) :
  (String.length (PyStr.lstrip s) ≤ String.length s)%nat.
Proof.
  induction s as [|c s IH]; simpl; [lia|].
  destruct (PyStr.is_space c); simpl; lia.
Qed.

Lemma lstrip_fixed_cons (c : ascii) (s : string) :
  PyStr.lstrip (String c s) = String c s → PyStr.is_space c = false.
Proof.
  cbn [PyStr.lstrip]. destruct (PyStr.is_space c); [|done].
  intros H. pose proof (lstrip_length s) as Hl. rewrite H in Hl.
  simpl in Hl. lia.
Qed.

Lemma lstrip_nonspace (c : ascii) (s : string) :
  PyStr.is_space c = false → PyStr.lstrip (String c s) = String c s.
Proof. cbn [PyStr.lstrip]. by intros ->. Qed.

(** A line without newline that does not end in white space is matched
    whole by the lazy group. *)
Lemma lazy_line_whole (body tail tail' : string) :
  body ≠ EmptyString →
  PyStr.contains (String PyStr.newline EmptyString) body = false →
  PyStr.rstrip body = body →
  PyRe.line_end tail = Some tail' →
  PyRe.lazy_line (body ++ tail) = Some (body, tail').
Proof.
  intros Hne Hnl Hr Htail. induction body as [|c body IH]; [done|].
  rewrite contains_char_cons in Hnl. apply orb_false_iff in Hnl as [Hc Hnl].
  rewrite append_cons. cbn [PyRe.lazy_line].
  rewrite Ascii.eqb_sym in Hc. rewrite Hc.
  apply rstrip_fixed_cons in Hr.
  destruct body as [|d body].
  - rewrite append_nil. by rewrite Htail.
  - specialize (IH ltac:(done) Hnl Hr). rewrite IH.
    assert (PyRe.line_end (String d body ++ tail) = None) as ->; [|done].
    rewrite contains_char_cons in Hnl. apply orb_false_iff in Hnl as [Hd Hnl].
    rewrite append_cons. cbn [PyRe.line_end]. rewrite Ascii.eqb_sym in Hd.
    rewrite Hd.
    destruct (Ascii.eqb d PyRe.carriage_return) eqn:Hcr; [|done].
    apply Ascii.eqb_eq in Hcr. subst d.
    destruct body as [|e body].
    + apply rstrip_fixed_cons in Hr. vm_compute in Hr. discriminate.
    + rewrite append_cons. rewrite contains_char_cons in Hnl.
      apply orb_false_iff in Hnl as [He _]. rewrite Ascii.eqb_sym in He.
      by rewrite He.
Qed.

Lemma split_char_app (c : ascii) (x s : string) :
  PyStr.contains (String c EmptyString) x = false →
  PyRe.split_char c (x ++ String c s) = x :: PyRe.split_char c s.
Proof.
  intros Hx. induction x as [|a x IH].
  - rewrite append_nil. cbn [PyRe.split_char]. by rewrite Ascii.eqb_refl.
  - rewrite contains_char_cons in Hx. apply orb_false_iff in Hx as [Ha Hx].
    rewrite append_cons. cbn [PyRe.split_char]. rewrite Ascii.eqb_sym in Ha.
    rewrite Ha. by rewrite IH.
Qed.

Lemma split_char_none (c : ascii) (x : string) :
  PyStr.contains (String c EmptyString) x = false →
  PyRe.split_char c x = [x].
Proof.
  intros Hx. induction x as [|a x IH]; [done|].
  rewrite contains_char_cons in Hx. apply orb_false_iff in Hx as [Ha Hx].
  cbn [PyRe.split_char]. rewrite Ascii.eqb_sym in Ha. rewrite Ha.
  by rewrite IH.
Qed.

Lemma split_once_app (c : ascii) (n v : string) :
  PyStr.contains (String c EmptyString) n = false →
  PyStr.split_once c (n ++ String c v) = Some (n, v).
Proof.
  intros Hn. induction n as [|a n IH].
  - rewrite append_nil. cbn [PyStr.split_once]. by rewrite Ascii.eqb_refl.
  - rewrite contains_char_cons in Hn. apply orb_false_iff in Hn as [Ha Hn].
    rewrite append_cons. cbn [PyStr.split_once]. rewrite Ascii.eqb_sym in Ha.
    rewrite Ha. by rewrite IH.
Qed.

(** The text [name=value] of an item. *)
Lemma item_text_tidy (kv : string * string) :
  tidy_item kv →
  let r := (fst kv ++ "=" ++ snd kv)%string in
  (∃ c r', r = String c r' ∧ PyStr.is_space c = false) ∧
  PyStr.rstrip r = r ∧
  PyStr.contains ";" r = false ∧
  PyStr.contains (String PyStr.newline EmptyString) r = false.
Proof.
  destruct kv as [n v].
  intros ((Hnl & Hnr & Hns & Hnn) & (Hvl & Hvr & Hvs & Hvn) & Hne).
  cbn [fst snd] in *. cbv zeta.
  assert (PyStr.rstrip ("=" ++ v) = "=" ++ v)%string as Hrv.
  { change ("=" ++ v)%string with (String "=" v).
    rewrite rstrip_cons; [by rewrite Hvr|by right]. }
  split; [|split; [|split]].
  - destruct n as [|c n].
    + exists "="%char, v. done.
    + exists c, (n ++ "=" ++ v)%string. split; [done|].
      by apply lstrip_fixed_cons in Hnl.
  - rewrite rstrip_app; rewrite Hrv; done.
  - rewrite contains_char_app, Hns.
    change ("=" ++ v)%string with (String "=" v).
    rewrite contains_char_cons, Hvs. done.
  - rewrite contains_char_app, Hnn.
    change ("=" ++ v)%string with (String "=" v).
    rewrite contains_char_cons, Hvn. done.
Qed.

Lemma collect_cookie_item (m : gmap string string) (kv : string * string) :
  tidy_item kv →
  collect_cookie m (fst kv ++ "=" ++ snd kv) = <[fst kv := snd kv]> m ∧
  collect_cookie m (String " " (fst kv ++ "=" ++ snd kv))
    = <[fst kv := snd kv]> m.
Proof.
  intros Ht. pose proof (item_text_tidy kv Ht) as ((c & r' & Hr & Hc) & Hrs & _).
  destruct kv as [n v]. destruct Ht as ((Hnl & Hnr & _) & (Hvl & Hvr & _) & Hne).
  cbn [fst snd] in *.
  assert (PyStr.strip (n ++ "=" ++ v) = n ++ "=" ++ v)%string as Hstrip.
  { unfold PyStr.strip. rewrite Hr, lstrip_nonspace; [|done].
    by rewrite <- Hr. }
  assert (PyStr.strip (String " " (n ++ "=" ++ v)) = n ++ "=" ++ v)%string
    as Hstrip'.
  { unfold PyStr.strip. cbn [PyStr.lstrip].
    change (PyStr.is_space " ") with true. cbv iota.
    rewrite Hr, lstrip_nonspace; [|done]. by rewrite <- Hr. }
  assert (∀ piece, PyStr.strip piece = (n ++ "=" ++ v)%string →
                   collect_cookie m piece = <[n := v]> m) as Hone.
  { intros piece Hp. unfold collect_cookie. rewrite Hp.
    change ("=" ++ v)%string with (String "=" v).
    rewrite contains_char_app, contains_char_cons, Ascii.eqb_refl.
    rewrite orb_true_r. rewrite split_once_app; [|done].
    unfold PyStr.strip. by rewrite Hnl, Hnr, Hvl, Hvr. }
  split; by apply Hone.
Qed.

Lemma join_text (x : string) (rest : list string) :
  rest ≠ [] → PyRe.join "; " (x :: rest) = (x ++ "; " ++ PyRe.join "; " rest)%string.
Proof. by destruct rest. Qed.

(** The cookie line of a sequence of items that is not empty. *)
Lemma cookie_string_tidy (items : list (string * string)) :
  items ≠ [] → Forall tidy_item items →
  (∃ c r', cookie_string items = String c r' ∧ PyStr.is_space c = false) ∧
  PyStr.rstrip (cookie_string items) = cookie_string items ∧
  PyStr.contains (String PyStr.newline EmptyString) (cookie_string items)
    = false ∧
  ∀ m, fold_left collect_cookie
         (PyRe.split_char ";" (cookie_string items)) m
       = fold_left (fun m kv => <[fst kv := snd kv]> m) items m.
Proof.
  unfold cookie_string.
  induction items as [|kv items IH]; [done|]. intros _ Hall.
  apply Forall_cons in Hall as [Hkv Hall].
  pose proof (item_text_tidy kv Hkv) as ((c & r' & Hr & Hc) & Hrs & Hsemi & Hnl).
  cbv zeta in *.
  destruct items as [|kv' items].
  - cbn [map PyRe.join]. split; [eauto|]. split; [done|].
    split; [done|]. intros m. rewrite split_char_none; [|done].
    cbn [fold_left]. by destruct (collect_cookie_item m kv Hkv) as [-> _].
  - specialize (IH ltac:(done) Hall)
      as ((c2 & r2 & Hj & Hc2) & Hjr & Hjn & Hfold).
    rewrite map_cons, join_text; [|done].
    set (J := PyRe.join "; " (map _ (kv' :: items))) in *.
    split; [|split; [|split]].
    + exists c, (r' ++ "; " ++ J)%string. split; [|done]. by rewrite Hr.
    + rewrite rstrip_app.
      * f_equal. change ("; " ++ J)%string with (String ";" (String " " J)).
        rewrite rstrip_cons; [|by right]. f_equal.
        rewrite rstrip_cons; [by rewrite Hjr|]. left. rewrite Hjr, Hj. done.
      * change ("; " ++ J)%string with (String ";" (String " " J)).
        rewrite rstrip_cons; [done|by right].
    + rewrite contains_char_app, Hnl.
      change ("; " ++ J)%string with (String ";" (String " " J)).
      rewrite !contains_char_cons, Hjn. done.
    + intros m. change ("; " ++ J)%string with (String ";" (String " " J)).
      rewrite split_char_app; [|done]. cbn [fold_left].
      destruct (collect_cookie_item m kv Hkv) as [-> _].
      set (m1 := <[fst kv := snd kv]> m).
      cbn [PyRe.split_char]. change (Ascii.eqb " " ";") with false. cbv iota.
      specialize (Hfold m1) as Hfold1.
      destruct (PyRe.split_char ";" J) as [|p ps] eqn:Hsplit.
      { exfalso. clear -Hsplit. destruct J as [|a J]; [done|].
        cbn [PyRe.split_char] in Hsplit.
        destruct (Ascii.eqb a ";"); [done|].
        by destruct (PyRe.split_char ";" J). }
      (* the first piece of the rest is its first item *)
      assert (p = (fst kv' ++ "=" ++ snd kv')%string) as Hp.
      { apply Forall_cons in Hall as [Hkv' _].
        pose proof (item_text_tidy kv' Hkv') as (_ & _ & Hsemi' & _).
        cbv zeta in Hsemi'. unfold J in Hsplit. destruct items as [|kv'' items].
        - cbn [map PyRe.join] in Hsplit. rewrite split_char_none in Hsplit;
            [|done]. by injection Hsplit as <- _.
        - rewrite map_cons, join_text in Hsplit; [|done].
          change ("; " ++ ?x)%string with (String ";" (String " " x)) in Hsplit.
          rewrite split_char_app in Hsplit; [|done].
          by injection Hsplit as <- _. }
      cbn [fold_left] in Hfold1 |- *.
      apply Forall_cons in Hall as [Hkv' _].
      destruct (collect_cookie_item m1 kv' Hkv') as [H1 H2].
      rewrite Hp in Hfold1 |- *. rewrite H2. rewrite H1 in Hfold1.
      exact Hfold1.
Qed.

Lemma fold_left_insert (items : list (string * string)) :
  ∀ m : gmap string string,
    fold_left (fun m kv => <[fst kv := snd kv]> m) items m
    = list_to_map (reverse items) ∪ m.
Proof.
  induction items as [|[k v] items IH]; intros m; cbn [fold_left fst snd].
  - rewrite reverse_nil. cbn [list_to_map foldr].
    by rewrite (left_id_L ∅ (∪)).
  - rewrite IH, reverse_cons, list_to_map_app. cbn [list_to_map foldr].
    rewrite <- (assoc_L (∪)). f_equal.
    by rewrite insert_union_singleton_l.
Qed.

Lemma lower_cons (c : ascii) (s : string) :
  PyStr.lower (String c s) = String (PyStr.lower_char c) (PyStr.lower s).
Proof. reflexivity. Qed.

(** A header name in any case is accepted. *)
Lemma strip_prefix_ci_app (p : string) :
  ∀ h rest, PyStr.lower p = PyStr.lower h →
            PyRe.strip_prefix_ci p (h ++ rest) = Some rest.
Proof.
  induction p as [|a p IH]; intros [|b h] rest; try done.
  rewrite !lower_cons. intros [= Hab Hph]. rewrite append_cons.
  cbn [PyRe.strip_prefix_ci]. rewrite Hab, Ascii.eqb_refl. by apply IH.
Qed.

(** A match that starts inside [s] and runs past its end. *)
Lemma strip_prefix_ci_straddle (p : string) :
  ∀ s rest r,
    PyRe.strip_prefix_ci p (s ++ rest) = Some r →
    PyStr.startswith (PyStr.lower p) (PyStr.lower s) = true ∨
    ∃ p1 p2, p = (p1 ++ p2)%string ∧ p2 ≠ EmptyString ∧
             String.length p1 = String.length s ∧
             PyRe.strip_prefix_ci p2 rest = Some r.
Proof.
  unfold PyStr.startswith.
  induction p as [|a p IH]; intros s rest r.
  - intros _. left. by destruct s.
  - destruct s as [|b s].
    + rewrite append_nil. intros H. right. exists EmptyString, (String a p).
      by rewrite append_nil.
    + rewrite append_cons, !lower_cons.
      cbn [PyRe.strip_prefix_ci PyStr.strip_prefix].
      destruct (Ascii.eqb (PyStr.lower_char a) (PyStr.lower_char b));
        [|done].
      intros H. apply IH in H as [H|(p1 & p2 & -> & Hne & Hlen & H)];
        [by left|].
      right. exists (String a p1), p2. rewrite append_cons.
      split; [done|]. split; [done|]. split; [simpl; by f_equal|done].
Qed.

(** No piece of the header name after its first letter starts with that
    letter. *)
Lemma cookie_name_tail (p1 p2 rest r : string) (c : ascii) :
  (p1 ++ p2)%string = "ookie:" → p2 ≠ EmptyString →
  PyStr.lower_char c = "c"%char →
  PyRe.strip_prefix_ci p2 (String c rest) = Some r → False.
Proof.
  intros H Hne Hc Hp.
  do 6 (destruct p1 as [|? p1];
        [rewrite append_nil in H; subst p2;
         cbn [PyRe.strip_prefix_ci] in Hp; rewrite Hc in Hp;
         vm_compute in Hp; discriminate Hp
        |rewrite append_cons in H; injection H as -> H]).
  destruct p1; [by rewrite append_nil in H|by rewrite append_cons in H].
Qed.

Lemma no_match_inside (s rest : string) (c : ascii) :
  s ≠ EmptyString →
  PyStr.startswith "cookie:" (PyStr.lower s) = false →
  PyStr.lower_char c = "c"%char →
  PyRe.match_here "Cookie:" (s ++ String c rest) = None.
Proof.
  intros Hs Hstart Hc. unfold PyRe.match_here.
  destruct (PyRe.strip_prefix_ci "Cookie:" (s ++ String c rest)) as [r|]
    eqn:Hp; [|done].
  exfalso.
  apply strip_prefix_ci_straddle in Hp as [Hp|(p1 & p2 & H & Hne & Hlen & Hp)].
  - change (PyStr.lower "Cookie:") with "cookie:" in Hp. congruence.
  - destruct s as [|b s]; [done|].
    destruct p1 as [|a p1]; [done|].
    rewrite append_cons in H. injection H as _ H.
    by eapply cookie_name_tail.
Qed.

(** The search passes over a text without the header name. *)
Lemma search_skip (pre rest : string) (c : ascii) :
  PyStr.contains "cookie:" (PyStr.lower pre) = false →
  PyStr.lower_char c = "c"%char →
  PyRe.search "Cookie:" (pre ++ String c rest)
  = PyRe.search "Cookie:" (String c rest).
Proof.
  intros Hpre Hc. induction pre as [|a pre IH]; [by rewrite append_nil|].
  rewrite lower_cons in Hpre. cbn [PyStr.contains] in Hpre.
  apply orb_false_iff in Hpre as [Hstart Hpre].
  rewrite append_cons. cbn [PyRe.search].
  rewrite <- append_cons, no_match_inside; [|done|done|done].
  by apply IH.
Qed.

(** The white space after the colon, line breaks included, is passed
    before the value is read. *)
Lemma after_spaces_skip (ws body : string) (found : string * string) :
  PyStr.lstrip ws = EmptyString →
  PyRe.after_spaces body = Some found →
  PyRe.after_spaces (ws ++ body) = Some found.
Proof.
  intros Hws Hbody. induction ws as [|a ws IH]; [by rewrite append_nil|].
  cbn [PyStr.lstrip] in Hws. rewrite append_cons. cbn [PyRe.after_spaces].
  destruct (PyStr.is_space a); [|done].
  by rewrite IH.
Qed.

(** X23. The cookie line is read back: for a dictionary that is not empty and
    whose names and values are tidy, the ASCII request text made of any
    text without the header name, the header name in any case, any white
    space, the cookies joined by a semicolon and a space in any order, and
    the end of the line, gives back exactly that dictionary. *)
Theorem cookie_line_round_trip (cookies : gmap string string)
    (items : list (string * string)) (pre name ws tail : string) :
  PyStr.isascii (pre ++ name ++ ws ++ cookie_string items ++ tail) = true →
  PyStr.contains "cookie:" (PyStr.lower pre) = false →
  PyStr.lower name = "cookie:" →
  PyStr.lstrip ws = EmptyString →
  items ≡ₚ map_to_list cookies →
  cookies ≠ ∅ →
  Forall tidy_item items →
  PyRe.line_end tail ≠ None →
  extract_cookies_from_request
    (pre ++ name ++ ws ++ cookie_string items ++ tail) = cookies.
Proof.
  intros _ Hpre Hname Hws Hperm Hne Htidy Htail.
  assert (items ≠ []) as Hitems.
  { intros ->. symmetry in Hperm. apply Permutation_nil_r in Hperm.
    by apply map_to_list_empty_iff in Hperm. }
  destruct (cookie_string_tidy items Hitems Htidy)
    as ((c & r' & Hr & Hc) & Hrs & Hnl & Hfold).
  destruct (PyRe.line_end tail) as [tail'|] eqn:Ht; [|done].
  unfold extract_cookies_from_request.
  assert (PyRe.search "Cookie:"
            (pre ++ name ++ ws ++ cookie_string items ++ tail)
          = Some (cookie_string items, tail')) as ->.
  { destruct name as [|n name]; [done|].
    rewrite lower_cons in Hname. injection Hname as Hn Hname.
    rewrite append_cons, search_skip; [|done|done].
    cbn [PyRe.search]. unfold PyRe.match_here. rewrite <- append_cons.
    rewrite strip_prefix_ci_app;
      [|change (PyStr.lower "Cookie:") with "cookie:";
        by rewrite lower_cons, Hn, Hname].
    rewrite (after_spaces_skip ws _ (cookie_string items, tail'));
      [done|done|].
    rewrite Hr, append_cons. cbn [PyRe.after_spaces]. rewrite Hc.
    rewrite <- append_cons, <- Hr.
    apply lazy_line_whole; try done. by rewrite Hr. }
  rewrite Hfold, fold_left_insert, (right_id_L ∅ (∪)).
  etrans; [|apply (list_to_map_to_list cookies)].
  apply list_to_map_proper.
  - rewrite fmap_reverse, reverse_Permutation, Hperm.
    apply NoDup_fst_map_to_list.
  - by rewrite reverse_Permutation.
Qed.

(** ** Instances *)

(** The second ride of the batch has no [name]: the first insert is undone
    and the stored ride is still there. *)
Lemma store_rides_failure_rolls_back_witness :
  let st' := snd (store_rides Cases.offline Cases.second_without_name
                    "Kunskapsprov" Cases.with_one_ride) in
  store_rides Cases.offline Cases.second_without_name "Kunskapsprov"
    Cases.with_one_ride = (Raise (KeyError "name"), st') ∧
  database st' = Scenario.one_ride_stored ∧
  session_manager st' = Scenario.no_cookies ∧
  (builtin_error (KeyError "name") ∨ KeyError "name" = SqliteError).
Proof.
  intros st'.
  assert (store_rides Cases.offline Cases.second_without_name "Kunskapsprov"
            Cases.with_one_ride = (Raise (KeyError "name"), st')) as H
    by (vm_compute; reflexivity).
  split; [exact H|].
  exact (store_rides_failure_rolls_back Cases.offline _ _ _ _ _ H).
Defined.

Lemma get_all_rides_after_store_rides_witness :
  let st' := snd (store_rides Cases.offline [Scenario.stockholm]
                    "Kunskapsprov" Cases.fresh) in
  ∃ l,
    get_all_rides "Kunskapsprov" st' = (Ok l, st') ∧
    List.length l = 1%nat ∧
    map (take 5) l
      ≡ₚ omap (bound_columns Cases.offline) [Scenario.stockholm] ∧
    ∀ other, other ≠ "Kunskapsprov" →
      fst (get_all_rides other st') = fst (get_all_rides other Cases.fresh).
Proof.
  intros st'.
  apply (get_all_rides_after_store_rides Cases.offline [Scenario.stockholm]
           "Kunskapsprov" Cases.fresh st').
  vm_compute. reflexivity.
Defined.

Lemma get_available_dates_returns_witness :
  let run := get_available_dates Cases.serving 1000 false Cases.fresh in
  ∃ r response_data status,
    occasion_bundles_at Cases.serving (pred (availability_posts (snd run)))
      = Responded r ∧
    (availability_posts Cases.fresh < availability_posts (snd run))%nat ∧
    status_code r = 200 ∧
    json_body r = Some response_data ∧
    getitem response_data "status" = Ok status ∧
    eq_int status 200 = true ∧
    extract_available response_data false
      = Ok (Cases.returned JNull (fst run)).
Proof.
  intros run.
  apply (get_available_dates_returns Cases.serving 1000 false Cases.fresh
           (snd run) (Cases.returned JNull (fst run))).
  vm_compute. reflexivity.
Defined.

Lemma http_status_is_transport_status_witness :
  let run := get_available_dates Cases.refusing 1000 false Cases.fresh in
  fst run = Raise (HTTPStatus 500) ∧
  ∃ r, occasion_bundles_at Cases.refusing
         (pred (availability_posts (snd run))) = Responded r ∧
       status_code r = 500.
Proof.
  intros run. split; [vm_compute; reflexivity|].
  apply (http_status_is_transport_status Cases.refusing 1000 false
           Cases.fresh (snd run) 500).
  vm_compute. reflexivity.
Defined.

Lemma rejected_status_raises_http_status_witness :
  ∃ st', get_available_dates Cases.refusing 1000 true Cases.about_to_expire
           = (Raise (HTTPStatus 500), st').
Proof.
  apply (rejected_status_raises_http_status Cases.refusing 1000 true
           Cases.about_to_expire 500).
  - discriminate.
  - intros n. exists Scenario.server_error. split; reflexivity.
Defined.

Lemma transport_failure_propagates_witness :
  ∃ st', get_available_dates Cases.offline 1000 false Cases.fresh
           = (Raise RequestException, st') ∧
         availability_posts st' = 1%nat ∧
         (renewal_posts st' ≤ 0 + 1)%nat.
Proof.
  apply (transport_failure_propagates Cases.offline 1000 false Cases.fresh).
  reflexivity.
Defined.

(** The body of an expired session, a renewal that succeeds, and the
    request sent again. *)
Lemma retry_only_after_renewal_witness :
  ∃ n r, (0 ≤ n ≤ 0 + 2)%nat ∧
         getCookie_at Cases.expiring n = Responded r ∧
         status_code r = 200 ∧ cookies_of_headers (headers r) ≠ ∅.
Proof.
  apply (retry_only_after_renewal Cases.expiring 1000 false
           Cases.about_to_expire).
  vm_compute. reflexivity.
Defined.

Lemma stripped_rides_carry_the_dates_witness :
  ∃ dates,
    dates_found (JList Scenario.two_occasions) = Ok dates ∧
    Forall2 (fun item d => getitem item "date" = Ok d)
      (Cases.returned []
         (strip_useless_info (JList Scenario.two_occasions)))
      dates.
Proof.
  apply (stripped_rides_carry_the_dates (JList Scenario.two_occasions)).
  reflexivity.
Defined.

(** The stripped record carries an object as its cost: the insert fails in
    the binding, not for a missing key. *)
Lemma stripped_rides_have_the_stored_keys_witness :
  let items := Cases.returned [] (strip_useless_info Cases.cost_as_object) in
  fst (store_rides Cases.offline items "Kunskapsprov" Cases.fresh)
    = Raise SqliteError.
Proof.
  intros items.
  assert (∃ e, fst (store_rides Cases.offline items "Kunskapsprov"
                      Cases.fresh) = Raise e) as [e He]
    by (eexists; vm_compute; reflexivity).
  rewrite He. f_equal.
  apply (stripped_rides_have_the_stored_keys Cases.offline
           Cases.cost_as_object items "Kunskapsprov" Cases.fresh e).
  - reflexivity.
  - exact He.
Defined.

Lemma cycle_report_rebuilds_current_witness :
  let last : gset (list (string * string)) :=
    list_to_set [ride_items Scenario.stockholm_row] in
  ∃ out st',
    monitor_cycle Cases.serving "Kunskapsprov" [1000] last
      Cases.with_one_ride = (Ok out, st') ∧
    (last ∖ removed_rides out) ∪ new_rides out
      = current_available_rides out ∧
    new_rides out ## last ∧
    removed_rides out ⊆ last ∧
    removed_rides out ## current_available_rides out.
Proof.
  intros last.
  destruct (monitor_cycle Cases.serving "Kunskapsprov" [1000] last
              Cases.with_one_ride) as [[out|e] st'] eqn:Hrun.
  - exists out, st'. split; [reflexivity|].
    destruct (cycle_report_rebuilds_current Cases.serving "Kunskapsprov"
                [1000] last out _ st' Hrun) as (H1 & H2 & H3 & H4 & _).
    by repeat split.
  - exfalso.
    assert (Cases.has_returned
              (fst (monitor_cycle Cases.serving "Kunskapsprov" [1000] last
                      Cases.with_one_ride)) = true) as H
      by (vm_compute; reflexivity).
    rewrite Hrun in H. discriminate H.
Defined.

Lemma valid_cookies_stay_valid_witness :
  let st := Scenario.state Cases.signed_in Scenario.empty_database in
  validate_cookies
    (current_cookies
       (session_manager
          (snd (get_available_dates Cases.expiring 1000 false st))))
    = true ∧
  validate_cookies
    (current_cookies
       (session_manager
          (snd (poll_locations Cases.expiring [1000; 1001] [] st))))
    = true ∧
  validate_cookies
    (current_cookies
       (session_manager
          (snd (update_cookies Cases.expiring {[ "LoginValid" := "x" ]} st))))
    = true.
Proof.
  intros st.
  apply (valid_cookies_stay_valid Cases.expiring 1000 false [1000; 1001]
           {[ "LoginValid" := "x" ]} st).
  vm_compute. reflexivity.
Defined.

Lemma refresh_success_merges_witness :
  let st' := snd (refresh_cookies_proactively Cases.expiring
                    Cases.about_to_expire) in
  ∃ r,
    getCookie_at Cases.expiring 0 = Responded r ∧
    status_code r = 200 ∧
    cookies_of_headers (headers r) ≠ ∅ ∧
    current_cookies (session_manager st')
      = cookies_of_headers (headers r)
        ∪ current_cookies Scenario.expiring_soon ∧
    last_refresh_time (session_manager st') = Some Scenario.at_16_40 ∧
    clock_reads st' = 1%nat.
Proof.
  intros st'.
  destruct (refresh_success_merges Cases.expiring Cases.about_to_expire st')
    as (r & H1 & H2 & H3 & H4 & _ & _ & H5 & H6);
    [vm_compute; reflexivity|].
  exists r. by repeat split.
Defined.

Lemma not_due_after_renewal_witness :
  let st' := snd (refresh_cookies_proactively Cases.expiring
                    Cases.about_to_expire) in
  fst (should_refresh_cookies Cases.expiring Cases.about_to_expire)
    = Ok true ∧
  fst (should_refresh_cookies Cases.expiring st') = Ok false.
Proof.
  intros st'. split; [vm_compute; reflexivity|].
  apply (not_due_after_renewal Cases.expiring Cases.about_to_expire st').
  - vm_compute. reflexivity.
  - vm_compute. discriminate.
  - intros expiration H. vm_compute in H. injection H as <-.
    vm_compute. discriminate.
Defined.

Lemma is_session_expired_due_ignores_text_witness :
  is_session_expired Cases.expiring "Unauthorized" Cases.about_to_expire
    = is_session_expired Cases.expiring "OK" Cases.about_to_expire ∧
  ∃ renewed st',
    snd (should_refresh_cookies Cases.expiring Cases.about_to_expire) = st' ∧
    fst (refresh_cookies_proactively Cases.expiring st') = Ok renewed ∧
    fst (is_session_expired Cases.expiring "Unauthorized"
           Cases.about_to_expire) = Ok (negb renewed).
Proof.
  apply (is_session_expired_due_ignores_text Cases.expiring "Unauthorized"
           "OK" Cases.about_to_expire).
  vm_compute. reflexivity.
Defined.

Lemma no_cookie_header_no_cookies_witness :
  extract_cookies_from_request Cases.request_head = ∅ ∧
  extract_cookies_from_response Cases.request_head = ∅ ∧
  update_cookies_from_request Cases.offline Cases.request_head Cases.fresh
    = (Ok false, Cases.fresh) ∧
  update_cookies_from_response Cases.offline Cases.request_head Cases.fresh
    = (Ok false, Cases.fresh).
Proof.
  destruct (no_cookie_header_no_cookies Cases.offline Cases.request_head)
    as (H1 & H2 & H3); [vm_compute; reflexivity|vm_compute; reflexivity|].
  split; [exact H1|]. split; [exact H2|]. exact (H3 Cases.fresh).
Defined.

(** The header name in capitals, a tab after the colon. *)
Lemma cookie_line_round_trip_witness :
  extract_cookies_from_request
    (Cases.request_head ++ "COOKIE:" ++ String "009" EmptyString
     ++ cookie_string Cases.sent_cookies ++ Cases.request_tail)
  = list_to_map Cases.sent_cookies.
Proof.
  apply (cookie_line_round_trip (list_to_map Cases.sent_cookies)
           Cases.sent_cookies Cases.request_head "COOKIE:"
           (String "009" EmptyString) Cases.request_tail).
  - vm_compute. reflexivity.
  - vm_compute. reflexivity.
  - vm_compute. reflexivity.
  - vm_compute. reflexivity.
  - symmetry. apply map_to_list_to_map.
    apply (bool_decide_unpack _). vm_compute. exact I.
  - intros H. apply (f_equal (fun m => m !! "LoginValid")) in H.
    vm_compute in H. discriminate H.
  - repeat constructor; vm_compute; reflexivity.
  - vm_compute. discriminate.
Defined.
